(** * EmployeeManager: roster integrity and Secret Santa assignment

    A shallow embedding of the logic of [src/components/EmployeeManager.js]:
    the roster handlers (create, update, delete, snapshot load), the
    spreadsheet import with its confirmation step, and the two draw modes
    (bulk and individual).  React state is threaded explicitly through the
    handlers as a record; [Math.random] is an explicit input; timers are
    modelled by the closure they capture and the callback that consumes it. *)

From Stdlib Require Import Ascii String QArith Qround Sorted DecimalString DecimalNat.
From stdpp Require Import gmap strings list sorting.

Open Scope Z_scope.
Open Scope string_scope.

(** ** JavaScript strings

    A string is a sequence of code units below 256 (Latin-1).  On that range
    [String.prototype.trim] strips the code units 9-13, 32 and 160, and
    [String.prototype.toLowerCase] adds 32 to A-Z and to the accented capitals
    192-222 (215, the multiplication sign, excepted). *)

Module JsString.

Definition isWhitespace (c : ascii) : bool :=
  let n := N_of_ascii c in
  ((9 <=? n) && (n <=? 13) || (n =? 32) || (n =? 160))%N.

Definition toLowerCaseChar (c : ascii) : ascii :=
  let n := N_of_ascii c in
  if ((65 <=? n) && (n <=? 90) ||
      (192 <=? n) && (n <=? 222) && negb (n =? 215))%N
  then ascii_of_N (n + 32) else c.

Fixpoint toLowerCase (s : string) : string :=
  match s with
  | EmptyString => EmptyString
  | String c s' => String (toLowerCaseChar c) (toLowerCase s')
  end.

Fixpoint trimStart (s : string) : string :=
  match s with
  | EmptyString => EmptyString
  | String c s' => if isWhitespace c then trimStart s' else s
  end.

Fixpoint trimEnd (s : string) : string :=
  match s with
  | EmptyString => EmptyString
  | String c s' =>
      match trimEnd s' with
      | EmptyString => if isWhitespace c then EmptyString else String c EmptyString
      | t => String c t
      end
  end.

Definition trim (s : string) : string := trimEnd (trimStart s).

(** [s.includes(sub)] *)
Fixpoint includes (s sub : string) : bool :=
  String.prefix sub s ||
  match s with
  | EmptyString => false
  | String _ s' => includes s' sub
  end.

(** The one-character string holding a double quote. *)
Definition dquote : string := String (ascii_of_N 34) EmptyString.

(** A string is truthy when it is not empty. *)
Definition truthy (s : string) : bool :=
  match s with EmptyString => false | _ => true end.

(** What "no leading or trailing whitespace" means, independently of [trim]. *)
Definition startsWithWhitespace (s : string) : bool :=
  match s with
  | EmptyString => false
  | String c _ => isWhitespace c
  end.

Fixpoint endsWithWhitespace (s : string) : bool :=
  match s with
  | EmptyString => false
  | String c EmptyString => isWhitespace c
  | String _ s' => endsWithWhitespace s'
  end.

End JsString.

Import JsString.

(** ** Data model *)

(** An element of the [employees] array. *)
Record employee := Employee {
  id : Z;
  empnid : string;
  name : string;
  interests : string
}.

Global Instance employee_eq_dec : EqDecision employee.
Proof. solve_decision. Defined.

(** An entry of [importDuplicates]. *)
Record duplicate := Duplicate {
  dup_row : Z;
  dup_empnid : string;
  dup_name : string;
  dup_reason : string
}.

Global Instance duplicate_eq_dec : EqDecision duplicate.
Proof. solve_decision. Defined.

(** The component state.  Only the [useState] cells that the handlers below
    read or that carry roster and assignment data are kept; [formData] is
    flattened into its three fields.  [secretSantaAssignments] is the object
    used as a map from member id to member id. *)
Record State := mkState {
  employees : list employee;
  formData_empnid : string;
  formData_name : string;
  formData_interests : string;
  editingId : option Z;
  error : string;
  lastId : Z;
  secretSantaAssignments : gmap Z Z;
  showSlotSelection : bool;
  currentDrawingEmployee : option employee;
  availableSlots : list employee;
  selectedSlot : option nat;
  showImportPopup : bool;
  importDuplicates : list duplicate;
  pendingImportEmployees : list employee
}.

Definition setEmployees (v : list employee) (st : State) : State :=
  mkState v (formData_empnid st) (formData_name st) (formData_interests st)
    (editingId st) (error st) (lastId st) (secretSantaAssignments st)
    (showSlotSelection st) (currentDrawingEmployee st) (availableSlots st)
    (selectedSlot st) (showImportPopup st) (importDuplicates st)
    (pendingImportEmployees st).

Definition setFormData (e n i : string) (st : State) : State :=
  mkState (employees st) e n i
    (editingId st) (error st) (lastId st) (secretSantaAssignments st)
    (showSlotSelection st) (currentDrawingEmployee st) (availableSlots st)
    (selectedSlot st) (showImportPopup st) (importDuplicates st)
    (pendingImportEmployees st).

Definition setEditingId (v : option Z) (st : State) : State :=
  mkState (employees st) (formData_empnid st) (formData_name st)
    (formData_interests st)
    v (error st) (lastId st) (secretSantaAssignments st)
    (showSlotSelection st) (currentDrawingEmployee st) (availableSlots st)
    (selectedSlot st) (showImportPopup st) (importDuplicates st)
    (pendingImportEmployees st).

Definition setError (v : string) (st : State) : State :=
  mkState (employees st) (formData_empnid st) (formData_name st)
    (formData_interests st)
    (editingId st) v (lastId st) (secretSantaAssignments st)
    (showSlotSelection st) (currentDrawingEmployee st) (availableSlots st)
    (selectedSlot st) (showImportPopup st) (importDuplicates st)
    (pendingImportEmployees st).

Definition setLastId (v : Z) (st : State) : State :=
  mkState (employees st) (formData_empnid st) (formData_name st)
    (formData_interests st)
    (editingId st) (error st) v (secretSantaAssignments st)
    (showSlotSelection st) (currentDrawingEmployee st) (availableSlots st)
    (selectedSlot st) (showImportPopup st) (importDuplicates st)
    (pendingImportEmployees st).

Definition setSecretSantaAssignments (v : gmap Z Z) (st : State) : State :=
  mkState (employees st) (formData_empnid st) (formData_name st)
    (formData_interests st)
    (editingId st) (error st) (lastId st) v
    (showSlotSelection st) (currentDrawingEmployee st) (availableSlots st)
    (selectedSlot st) (showImportPopup st) (importDuplicates st)
    (pendingImportEmployees st).

Definition setShowSlotSelection (v : bool) (st : State) : State :=
  mkState (employees st) (formData_empnid st) (formData_name st)
    (formData_interests st)
    (editingId st) (error st) (lastId st) (secretSantaAssignments st)
    v (currentDrawingEmployee st) (availableSlots st)
    (selectedSlot st) (showImportPopup st) (importDuplicates st)
    (pendingImportEmployees st).

Definition setCurrentDrawingEmployee (v : option employee) (st : State) : State :=
  mkState (employees st) (formData_empnid st) (formData_name st)
    (formData_interests st)
    (editingId st) (error st) (lastId st) (secretSantaAssignments st)
    (showSlotSelection st) v (availableSlots st)
    (selectedSlot st) (showImportPopup st) (importDuplicates st)
    (pendingImportEmployees st).

Definition setAvailableSlots (v : list employee) (st : State) : State :=
  mkState (employees st) (formData_empnid st) (formData_name st)
    (formData_interests st)
    (editingId st) (error st) (lastId st) (secretSantaAssignments st)
    (showSlotSelection st) (currentDrawingEmployee st) v
    (selectedSlot st) (showImportPopup st) (importDuplicates st)
    (pendingImportEmployees st).

Definition setSelectedSlot (v : option nat) (st : State) : State :=
  mkState (employees st) (formData_empnid st) (formData_name st)
    (formData_interests st)
    (editingId st) (error st) (lastId st) (secretSantaAssignments st)
    (showSlotSelection st) (currentDrawingEmployee st) (availableSlots st)
    v (showImportPopup st) (importDuplicates st)
    (pendingImportEmployees st).

Definition setShowImportPopup (v : bool) (st : State) : State :=
  mkState (employees st) (formData_empnid st) (formData_name st)
    (formData_interests st)
    (editingId st) (error st) (lastId st) (secretSantaAssignments st)
    (showSlotSelection st) (currentDrawingEmployee st) (availableSlots st)
    (selectedSlot st) v (importDuplicates st)
    (pendingImportEmployees st).

Definition setImportDuplicates (v : list duplicate) (st : State) : State :=
  mkState (employees st) (formData_empnid st) (formData_name st)
    (formData_interests st)
    (editingId st) (error st) (lastId st) (secretSantaAssignments st)
    (showSlotSelection st) (currentDrawingEmployee st) (availableSlots st)
    (selectedSlot st) (showImportPopup st) v
    (pendingImportEmployees st).

Definition setPendingImportEmployees (v : list employee) (st : State) : State :=
  mkState (employees st) (formData_empnid st) (formData_name st)
    (formData_interests st)
    (editingId st) (error st) (lastId st) (secretSantaAssignments st)
    (showSlotSelection st) (currentDrawingEmployee st) (availableSlots st)
    (selectedSlot st) (showImportPopup st) (importDuplicates st)
    v.

(** The state of a freshly mounted component (the [useState] defaults). *)
Definition initialState : State :=
  mkState [] "" "" "" None "" 0 ∅ false None [] None false [] [].

(** ** Numbers

    An id and the counter are JavaScript numbers that hold integers, and are
    integers here.  The handlers add one to the counter, print ids and read
    them back; on the safe integers, between [-(2^53 - 1)] and [2^53 - 1],
    the number arithmetic of the source and its decimal notation are those
    of the integers.  Properties that depend on the value of a new id, or on
    the digits of an id, are stated for counters and ids in that range. *)
Definition maxSafeInteger : Z := 9007199254740991.

Definition safeInteger (z : Z) : Prop :=
  - maxSafeInteger <= z <= maxSafeInteger.

(** A counter that [n] increments leave within the safe integers. *)
Definition safeCounter (last : Z) (n : nat) : Prop :=
  - maxSafeInteger <= last /\ last + Z.of_nat n <= maxSafeInteger.

(** ** Roster handlers *)

(** [employees.some(emp => emp.empnid.toLowerCase() === code.toLowerCase())] *)
Definition empnidExists (emps : list employee) (code : string) : bool :=
  existsb (fun emp => bool_decide (toLowerCase (empnid emp) = toLowerCase code)) emps.

(** The same test with [&& emp.id !== editingId]. *)
Definition empnidExistsOther (emps : list employee) (code : string) (eid : Z) : bool :=
  existsb (fun emp => bool_decide (toLowerCase (empnid emp) = toLowerCase code)
                      && negb (bool_decide (id emp = eid))) emps.

(** [validateForm]: the verdict, and the state with the error it set. *)
Definition validateForm (st : State) : bool * State :=
  let trimmedEmpnid := trim (formData_empnid st) in
  let trimmedName := trim (formData_name st) in
  if negb (truthy trimmedEmpnid) then
    (false, setError "Employee ID is required" st)
  else if negb (truthy trimmedName) then
    (false, setError "Employee Name is required" st)
  else
    match editingId st with
    | None =>
        if empnidExists (employees st) trimmedEmpnid then
          (false, setError "Employee ID already exists. Please use a unique ID." st)
        else (true, st)
    | Some eid =>
        if empnidExistsOther (employees st) trimmedEmpnid eid then
          (false, setError "Employee ID already exists. Please use a unique ID." st)
        else (true, st)
    end.

(** [x ? x.trim() : ''], as used for the [interests] field. *)
Definition trimOrEmpty (s : string) : string :=
  if truthy s then trim s else "".

(** [handleCreate]; [lastId + 1] is the integer sum as long as the counter
    is a safe integer. *)
Definition handleCreate (st : State) : State :=
  match validateForm st with
  | (false, st') => st'
  | (true, _) =>
      let nextId := lastId st + 1 in
      let newEmployee :=
        Employee nextId (trim (formData_empnid st)) (trim (formData_name st))
                 (trimOrEmpty (formData_interests st)) in
      if empnidExists (employees st) (empnid newEmployee) then
        setError "Employee ID already exists. Please use a unique ID." st
      else
        setError ""
          (setFormData "" "" ""
            (setEmployees (employees st ++ [newEmployee])
              (setLastId nextId st)))
  end.

Definition handleUpdate (st : State) : State :=
  match validateForm st with
  | (false, st') => st'
  | (true, _) =>
      match editingId st with
      | None => setError "Employee not found" st
      | Some eid =>
          match List.find (fun emp => bool_decide (id emp = eid)) (employees st) with
          | None => setError "Employee not found" st
          | Some employeeToUpdate =>
              let updatedEmployee :=
                Employee (id employeeToUpdate) (trim (formData_empnid st))
                         (trim (formData_name st))
                         (trimOrEmpty (formData_interests st)) in
              if empnidExistsOther (employees st) (empnid updatedEmployee) eid then
                setError "Employee ID already exists. Please use a unique ID." st
              else
                setError ""
                  (setEditingId None
                    (setFormData "" "" ""
                      (setEmployees
                         (List.map (fun emp => if bool_decide (id emp = eid)
                                               then updatedEmployee else emp)
                                   (employees st))
                         st)))
          end
      end
  end.

(** The cascade of [handleDelete] on the assignment object: [delete
    newAssignments[id]], then for each key of the copy, in the order
    [Object.keys] lists them, delete the entry when its value is [id]. *)
Definition cascadeStep (d : Z) (acc : gmap Z Z) (empId : Z) : gmap Z Z :=
  if bool_decide (acc !! empId = Some d) then delete empId acc else acc.

Definition removeAssignmentsOf (d : Z) (prev : gmap Z Z) : gmap Z Z :=
  let newAssignments := delete d prev in
  foldl (cascadeStep d) newAssignments (map_to_list newAssignments).*1.

(** [handleDelete id]; [confirmed] is the answer of [window.confirm]. *)
Definition handleDelete (st : State) (d : Z) (confirmed : bool) : State :=
  if confirmed then
    let st1 := setEmployees (List.filter (fun emp => negb (bool_decide (id emp = d)))
                                         (employees st)) st in
    let st2 := setSecretSantaAssignments
                 (removeAssignmentsOf d (secretSantaAssignments st1)) st1 in
    if bool_decide (editingId st = Some d)
    then setEditingId None (setFormData "" "" "" st2)
    else st2
  else st.

Definition handleClearSecretSanta (st : State) (confirmed : bool) : State :=
  if confirmed then setSecretSantaAssignments ∅ st else st.

(** ** Spreadsheet import *)

(** A spreadsheet cell as the handler sees it: a JavaScript value, known by
    its truthiness and by its [String(...)] image. *)
Record cell := Cell {
  cell_truthy : bool;
  cell_string : string
}.

(** A text cell, and a hole in the row ([row[k]] is [undefined]). *)
Definition textCell (s : string) : cell := Cell (truthy s) s.
Definition undefinedCell : cell := Cell false "undefined".

(** [row[k]] for a column index; out of range gives [undefined]. *)
Definition cellAt (row : list cell) (k : nat) : cell :=
  default undefinedCell (row !! k).

(** [row[k] ? String(row[k]).trim() : ''] *)
Definition cellText (row : list cell) (k : nat) : string :=
  let c := cellAt row k in
  if cell_truthy c then trim (cell_string c) else "".

(** [headers.findIndex(p)], with [None] for -1. *)
Fixpoint findIndex {A} (p : A -> bool) (l : list A) : option nat :=
  match l with
  | [] => None
  | x :: l' => if p x then Some 0%nat else S <$> findIndex p l'
  end.

(** A hole in a row.  [sheet_to_json] leaves the place of an empty cell
    unset and never stores the value [undefined], so a cell that reads as
    [undefined] is a hole. *)
Definition isHole (c : cell) : bool :=
  negb (cell_truthy c) && bool_decide (cell_string c = "undefined").

(** [jsonData[0].map(h => String(h).toLowerCase().trim())]: [map] does not
    call its function on the holes of the header row and leaves them in
    place ([None]). *)
Definition headersOf (headerRow : list cell) : list (option string) :=
  List.map (fun h => if isHole h then None
                     else Some (trim (toLowerCase (cell_string h))))
           headerRow.

(** [headers.findIndex(h => h.includes(...) || ...)] on such a row.
    [findIndex] visits the holes as well, with [h] undefined, and the call
    of [h.includes] throws a TypeError there, unless a match has ended the
    search before.  [None] stands for the throw, [Some None] for -1. *)
Fixpoint findHeader (p : string -> bool) (headers : list (option string))
    : option (option nat) :=
  match headers with
  | [] => Some None
  | None :: _ => None
  | Some h :: headers' =>
      if p h then Some (Some 0%nat)
      else (fun k : option nat => S <$> k) <$> findHeader p headers'
  end.

(** The tests that locate the columns.  The index of the serial-number
    column is never used, but its search runs first and can throw. *)
Definition isSerialHeader (h : string) : bool :=
  includes h "s.no" || includes h "sno" || includes h "serial".

Definition isEmpIdHeader (h : string) : bool :=
  includes h "employee_id" || includes h "employee id" ||
  includes h "empnid" || includes h "emp id".

Definition isEmpNameHeader (h : string) : bool :=
  includes h "employee_name" || includes h "employee name" || includes h "name".

Definition isInterestsHeader (h : string) : bool :=
  includes h "interests" || includes h "hobbies" || includes h "interest".

(** The accumulators of the row loop. [seenInFile] is the [Map] used as a
    set of lower-cased identifiers. *)
Record importAcc := ImportAcc {
  newEmployees : list employee;
  duplicates : list duplicate;
  seenInFile : gset string;
  currentLastId : Z
}.

(** [new Set(employees.map(emp => emp.empnid.toLowerCase()))] *)
Definition existingEmpnidsOf (emps : list employee) : gset string :=
  list_to_set (List.map (fun emp => toLowerCase (empnid emp)) emps).

(** One iteration of the row loop, for the row at index [i] of [jsonData];
    [currentLastId++] adds one as long as the counter is a safe integer. *)
Definition importRow (existingEmpnids : gset string)
    (empIdIndex empNameIndex : nat) (interestsIndex : option nat)
    (i : Z) (row : list cell) (acc : importAcc) : importAcc :=
  if bool_decide (row = []) then acc else
  let empnid := cellText row empIdIndex in
  let name := cellText row empNameIndex in
  let interests :=
    match interestsIndex with
    | Some k => cellText row k
    | None => ""
    end in
  if negb (truthy empnid) || negb (truthy name) then acc else
  let empnidLower := toLowerCase empnid in
  if bool_decide (empnidLower ∈ seenInFile acc) then
    ImportAcc (newEmployees acc)
      (duplicates acc ++
         [Duplicate (i + 1) empnid name "Duplicate Employee ID in Excel file"])
      (seenInFile acc) (currentLastId acc)
  else if bool_decide (empnidLower ∈ existingEmpnids) then
    ImportAcc (newEmployees acc)
      (duplicates acc ++
         [Duplicate (i + 1) empnid name "Employee ID already exists in system"])
      (seenInFile acc) (currentLastId acc)
  else
    ImportAcc
      (newEmployees acc ++ [Employee (currentLastId acc + 1) empnid name interests])
      (duplicates acc)
      ({[ empnidLower ]} ∪ seenInFile acc)
      (currentLastId acc + 1).

(** The loop [for (let i = ...; i < jsonData.length; i++)] over the rows
    that remain from index [i] on. *)
Fixpoint importRows (existingEmpnids : gset string)
    (empIdIndex empNameIndex : nat) (interestsIndex : option nat)
    (i : Z) (rows : list (list cell)) (acc : importAcc) : importAcc :=
  match rows with
  | [] => acc
  | row :: rows' =>
      importRows existingEmpnids empIdIndex empNameIndex interestsIndex
        (i + 1) rows'
        (importRow existingEmpnids empIdIndex empNameIndex interestsIndex i row acc)
  end.

(** The whole row-processing block (source lines 387-439) for a roster, a
    counter and the data rows [jsonData[1..]]. *)
Definition processRows (emps : list employee) (last : Z)
    (empIdIndex empNameIndex : nat) (interestsIndex : option nat)
    (rows : list (list cell)) : importAcc :=
  importRows (existingEmpnidsOf emps) empIdIndex empNameIndex interestsIndex
    1 rows (ImportAcc [] [] ∅ last).

(** What the file input delivers: nothing, a file the reader throws on, or
    the sheet as rows of cells ([XLSX.utils.sheet_to_json] with [header: 1]). *)
Inductive upload :=
  | NoFile
  | Unreadable
  | Sheet (jsonData : list (list cell)).

(** The end of [reader.onload], once the rows are partitioned. *)
Definition commitImport (st : State) (acc : importAcc) : State :=
  if bool_decide (duplicates acc <> []) then
    setShowImportPopup true
      (setLastId (currentLastId acc)
        (setPendingImportEmployees (newEmployees acc)
          (setImportDuplicates (duplicates acc) st)))
  else if bool_decide (newEmployees acc <> []) then
    setError ""
      (setEmployees (employees st ++ newEmployees acc)
        (setLastId (currentLastId acc) st))
  else
    setError "No valid employees found in the Excel file." st.

(** The data rows of a sheet, [jsonData[1..]]. *)
Definition dataRows (file : upload) : list (list cell) :=
  match file with
  | Sheet (_ :: rows) => rows
  | _ => []
  end.

(** [handleExcelImport], from the file input to the end of [reader.onload].
    The four column searches run before any state is set; a TypeError in one
    of them ends in the [catch] branch like an unreadable file. *)
Definition handleExcelImport (st : State) (file : upload) : State :=
  match file with
  | NoFile => st
  | Unreadable =>
      setError "Error reading Excel file. Please ensure it is a valid Excel file." st
  | Sheet jsonData =>
      match jsonData with
      | headerRow :: ((_ :: _) as rows) =>
          let headers := headersOf headerRow in
          match findHeader isSerialHeader headers,
                findHeader isEmpIdHeader headers,
                findHeader isEmpNameHeader headers,
                findHeader isInterestsHeader headers with
          | Some _, Some (Some empIdIndex), Some (Some empNameIndex),
            Some interestsIndex =>
              commitImport st
                (processRows (employees st) (lastId st)
                   empIdIndex empNameIndex interestsIndex rows)
          | Some _, Some _, Some _, Some _ =>
              setError
                ("Excel file must contain " ++ dquote ++ "Employee_ID" ++ dquote ++
                 " and " ++ dquote ++ "Employee_Name" ++ dquote ++ " columns.")
                st
          | _, _, _, _ =>
              setError
                "Error reading Excel file. Please ensure it is a valid Excel file." st
          end
      | _ =>
          setError "Excel file must have at least a header row and one data row." st
      end
  end.

Definition handleImportConfirm (st : State) : State :=
  let st1 :=
    if bool_decide (pendingImportEmployees st <> [])
    then setError "" (setEmployees (employees st ++ pendingImportEmployees st) st)
    else st in
  setPendingImportEmployees []
    (setImportDuplicates []
      (setShowImportPopup false st1)).

(** ** Randomness

    [Math.random()] returns a number [r] with [0 <= r < 1]; the handlers only
    use it as [Math.floor(r * n)].  A random number is a rational (every
    double is one), and a handler that draws several takes the sequence of
    them as a function of the call number. *)

Definition randomIndex (r : Q) (n : nat) : nat :=
  Z.to_nat (Qfloor (r * inject_Z (Z.of_nat n))).

Definition inUnitInterval (r : Q) : Prop := (0 <= r)%Q /\ (r < 1)%Q.

(** ** Bulk draw *)

(** [[a[i], a[j]] = [a[j], a[i]]]: both reads come first, then the two
    writes.  The indices the shuffle produces are always in range (see
    [randomIndex_lt]); for any other index the array is returned as it is. *)
Definition swap {A} (a : list A) (i j : nat) : list A :=
  match a !! j, a !! i with
  | Some x, Some y => <[j := y]> (<[i := x]> a)
  | _, _ => a
  end.

(** The Fisher-Yates loop [for (i = ...; i > 0; i--)], entered at index [i]
    with [k] random numbers already consumed; returns the array and the
    number of random numbers consumed so far. *)
Fixpoint fisherYates (random : nat -> Q) (k : nat) (i : nat)
    (shuffled : list employee) : list employee * nat :=
  match i with
  | O => (shuffled, k)
  | S i' =>
      let j := randomIndex (random k) (i + 1) in
      fisherYates random (S k) i' (swap shuffled i j)
  end.

Definition shuffle (random : nat -> Q) (k : nat) (a : list employee)
    : list employee * nat :=
  fisherYates random k (length a - 1) a.

(** The inner [while]: advance [assignedIndex] circularly while it points at
    the member itself and fewer than [n] retries were made. [fuel] is the
    number of retries left. *)
Fixpoint scanForward (n : nat) (eid : Z) (shuffled : list employee)
    (assignedIndex : nat) (fuel : nat) : nat :=
  match fuel with
  | O => assignedIndex
  | S fuel' =>
      match shuffled !! assignedIndex with
      | Some s =>
          if bool_decide (eid = id s)
          then scanForward n eid shuffled ((assignedIndex + 1) mod n) fuel'
          else assignedIndex
      | None => assignedIndex
      end
  end.

(** The [for] loop over the members from position [i] on, filling
    [tempAssignments]; [None] is [valid = false]. *)
Fixpoint pairFrom (n : nat) (shuffled : list employee) (i : nat)
    (rest : list employee) (tempAssignments : gmap Z Z) : option (gmap Z Z) :=
  match rest with
  | [] => Some tempAssignments
  | e :: rest' =>
      let assignedIndex := scanForward n (id e) shuffled i n in
      match shuffled !! assignedIndex with
      | Some s =>
          if bool_decide (id e = id s) then None
          else pairFrom n shuffled (S i) rest' (<[id e := id s]> tempAssignments)
      | None => None
      end
  end.

Definition pairAll (emps shuffled : list employee) : option (gmap Z Z) :=
  pairFrom (length emps) shuffled 0 emps ∅.

Definition maxAttempts : nat := 100.

(** The [while (attempts < maxAttempts)] loop with [fuel] attempts left;
    the result is [finalAssignments], empty when every attempt failed. *)
Fixpoint attemptLoop (random : nat -> Q) (fuel : nat) (k : nat)
    (emps shuffled : list employee) : gmap Z Z :=
  match fuel with
  | O => ∅
  | S fuel' =>
      match pairAll emps shuffled with
      | Some tempAssignments => tempAssignments
      | None =>
          let '(shuffled', k') := shuffle random k shuffled in
          attemptLoop random fuel' k' emps shuffled'
      end
  end.

(** The computation inside the timer of [handleSecretSantaDraw]. *)
Definition drawAssignments (random : nat -> Q) (emps : list employee) : gmap Z Z :=
  let '(shuffled, k) := shuffle random 0 emps in
  attemptLoop random maxAttempts k emps shuffled.

(** [handleSecretSantaDraw] together with its timer callback; nothing else
    runs in between, the triggers being disabled while it animates. *)
Definition handleSecretSantaDraw (st : State) (random : nat -> Q) : State :=
  if bool_decide (length (employees st) < 2)%nat then
    setError "Need at least 2 employees for Secret Santa!" st
  else
    let st1 := setError "" st in
    let finalAssignments := drawAssignments random (employees st) in
    if bool_decide (finalAssignments = ∅) then
      setError "Unable to create valid Secret Santa assignments. Please try again." st1
    else setSecretSantaAssignments finalAssignments st1.

(** ** Individual draw *)

(** [new Set(Object.values(secretSantaAssignments))] *)
Definition assignedIdsOf (m : gmap Z Z) : gset Z :=
  list_to_set (map_to_list m).*2.

(** The pool: [employees.filter(emp => emp.id !== employeeId &&
    !assignedIds.has(emp.id))]. *)
Definition availableEmployees (st : State) (employeeId : Z) : list employee :=
  let assignedIds := assignedIdsOf (secretSantaAssignments st) in
  List.filter (fun emp => negb (bool_decide (id emp = employeeId))
                          && negb (bool_decide (id emp ∈ assignedIds)))
              (employees st).

Definition handleIndividualDraw (st : State) (employeeId : Z) : State :=
  match availableEmployees st employeeId with
  | [] =>
      setError "No available employees to assign! All employees may already be assigned." st
  | pool =>
      let employee := List.find (fun e => bool_decide (id e = employeeId)) (employees st) in
      setError ""
        (setShowSlotSelection true
          (setSelectedSlot None
            (setAvailableSlots pool
              (setCurrentDrawingEmployee employee st))))
  end.

(** What the timer callback of [handleSlotSelect] closes over. *)
Record pendingSelection := PendingSelection {
  pending_drawer : option employee;
  pending_assigned : option employee
}.

(** [handleSlotSelect slotIndex], with the value [Math.random()] returned;
    [None] as second component when the click is ignored. *)
Definition handleSlotSelect (st : State) (slotIndex : nat) (r : Q)
    : State * option pendingSelection :=
  match selectedSlot st with
  | Some _ => (st, None)
  | None =>
      let randomIndex := randomIndex r (length (availableSlots st)) in
      let assignedEmployee := availableSlots st !! randomIndex in
      (setSelectedSlot (Some slotIndex) st,
       Some (PendingSelection (currentDrawingEmployee st) assignedEmployee))
  end.

(** The timer callback.  Reading [.id] of a missing drawer or candidate
    throws: [None]. *)
Definition slotSelectTimeout (st : State) (p : pendingSelection) : option State :=
  match pending_drawer p, pending_assigned p with
  | Some drawer, Some assignedEmployee =>
      Some (setSelectedSlot None
             (setAvailableSlots []
               (setCurrentDrawingEmployee None
                 (setShowSlotSelection false
                   (setSecretSantaAssignments
                      (<[id drawer := id assignedEmployee]> (secretSantaAssignments st))
                      st)))))
  | _, _ => None
  end.

(** One complete individual draw with nothing interleaved: the request, and
    when it presented a pool, the click on a slot and the timer. *)
Definition individualDraw (st : State) (employeeId : Z) (slotIndex : nat) (r : Q)
    : option State :=
  match availableEmployees st employeeId with
  | [] => Some (handleIndividualDraw st employeeId)
  | _ =>
      match handleSlotSelect (handleIndividualDraw st employeeId) slotIndex r with
      | (st', Some p) => slotSelectTimeout st' p
      | (st', None) => Some st'
      end
  end.

(** A sequence of individual draws, each given by the drawer, the slot
    clicked and the random number. *)
Fixpoint individualDraws (st : State) (draws : list (Z * nat * Q)) : option State :=
  match draws with
  | [] => Some st
  | (employeeId, slotIndex, r) :: draws' =>
      match individualDraw st employeeId slotIndex r with
      | Some st' => individualDraws st' draws'
      | None => None
      end
  end.

(** ** Snapshot load *)

(** An element of the array parsed from the [employees_data] key.  A field
    is absent ([None]) or present; a present [id] is an integer, as every id
    the component itself writes is, and stands for what [parseInt(emp.id, 10)]
    reads, which is the stored number itself when that is a safe integer. *)
Record rawEmployee := RawEmployee {
  raw_id : option Z;
  raw_empnid : option string;
  raw_name : option string;
  raw_interests : option string
}.

(** The value under [employees_data]: missing, text on which the load
    throws (the [catch] branch), or an array whose elements are records or
    [null]. *)
Inductive savedEmployees :=
  | NoSnapshot
  | Corrupt
  | Snapshot (parsedEmployees : list (option rawEmployee)).

(** The two keys the load reads; [employees_last_id] holds what [parseInt]
    makes of the stored text, [None] when the key is missing or unreadable. *)
Record Storage := mkStorage {
  employees_data : savedEmployees;
  employees_last_id : option Z
}.

Record loadAcc := LoadAcc {
  uniqueEmployees : list employee;
  seenEmpnids : gset string;
  maxId : Z
}.

(** The body of [parsedEmployees.forEach]. *)
Definition loadRecord (acc : loadAcc) (emp : option rawEmployee) : loadAcc :=
  match emp with
  | Some (RawEmployee (Some i) (Some c) (Some n) ints) =>
      if negb (bool_decide (i = 0)) && truthy c && truthy n
         && negb (bool_decide (toLowerCase c ∈ seenEmpnids acc))
      then
        let employeeId := i in
        LoadAcc
          (uniqueEmployees acc ++
             [Employee employeeId (trim c) (trim n)
                (match ints with
                 | Some s => trimOrEmpty s
                 | None => ""
                 end)])
          ({[ toLowerCase c ]} ∪ seenEmpnids acc)
          (if bool_decide (employeeId > maxId acc) then employeeId else maxId acc)
      else acc
  | _ => acc
  end.

(** [sort((a, b) => a.id - b.id)]: the sort is stable, so it is the
    insertion of each element before the first one with a larger id. *)
Fixpoint insertById (e : employee) (l : list employee) : list employee :=
  match l with
  | [] => [e]
  | x :: l' => if bool_decide (id e <= id x) then e :: l else x :: insertById e l'
  end.

Definition sortById (l : list employee) : list employee :=
  foldr insertById [] l.

(** The mount effect that loads the roster, run on the initial state. *)
Definition loadSnapshot (sto : Storage) : State :=
  let initialLastId := default 0 (employees_last_id sto) in
  let st := setLastId initialLastId initialState in
  match employees_data sto with
  | NoSnapshot | Corrupt => st
  | Snapshot parsedEmployees =>
      let acc := foldl loadRecord (LoadAcc [] ∅ 0) parsedEmployees in
      let st1 := setEmployees (sortById (uniqueEmployees acc)) st in
      if bool_decide (maxId acc > initialLastId)
      then setLastId (maxId acc) st1
      else st1
  end.

(** [JSON.stringify(employees)] read back by [JSON.parse]. *)
Definition serialize (emps : list employee) : list (option rawEmployee) :=
  List.map (fun e => Some (RawEmployee (Some (id e)) (Some (empnid e))
                                       (Some (name e)) (Some (interests e))))
           emps.

(** The save effects, which run once the load has finished: the roster is
    always written back, the counter when it is not negative.  The counter
    is stored as [lastId.toString()] and read with [parseInt], which gives
    the same integer back when it is a safe integer. *)
Definition persist (st : State) (sto : Storage) : Storage :=
  mkStorage (Snapshot (serialize (employees st)))
            (if bool_decide (lastId st >= 0) then Some (lastId st)
             else employees_last_id sto).

(** Loading again what a load left in storage. *)
Definition reload (sto : Storage) : State :=
  loadSnapshot (persist (loadSnapshot sto) sto).

(** ** Concrete rosters and scenarios *)

Definition alice : employee := Employee 1 "E1" "Alice" "".
Definition bob : employee := Employee 2 "E2" "Bob" "".
Definition carol : employee := Employee 3 "E3" "Carol" "".

(** A freshly mounted component holding the given roster. *)
Definition rosterOf (emps : list employee) : State :=
  setEmployees emps initialState.

(** Three individual draws in a row: drawer, slot clicked, random number. *)
Definition threeDraws : list (Z * nat * Q) :=
  [(1, 0%nat, (1#2)%Q); (2, 1%nat, 0%Q); (3, 0%nat, (3#4)%Q)].

Definition afterThreeDraws : State :=
  setSecretSantaAssignments {[ 1 := 3; 2 := 1; 3 := 2 ]}
    (rosterOf [alice; bob; carol]).

(** A draw for Alice is requested and a slot clicked; Bob, the only
    candidate, is deleted before the timer fires. *)
Definition staleDrawRequest : State :=
  handleIndividualDraw (rosterOf [alice; bob]) 1.

Definition staleDrawClick : State * option pendingSelection :=
  handleSlotSelect staleDrawRequest 0 (1#2).

Definition staleDrawAfterDelete : State :=
  handleDelete staleDrawClick.1 2 true.

(** ** The import reconciler as the spec words it

    Section 4.2 of the spec, on candidate rows already cut out of the sheet:
    rows missing a code or a name are skipped; a code is compared, case
    folded, first with the codes accepted earlier in the batch, then with the
    roster; accepted rows get the ids that follow the counter. *)

Record candidate := Candidate {
  cand_row : Z;
  externalCode : string;
  displayName : string;
  notes : string
}.

Inductive reason :=
  | DuplicateInBatch
  | DuplicateInRoster.

Record rejection := Rejection {
  rej_row : Z;
  rej_externalCode : string;
  rej_displayName : string;
  rej_reason : reason
}.

Definition sameCode (a b : string) : bool :=
  bool_decide (toLowerCase a = toLowerCase b).

Fixpoint reconcile (roster : list employee) (nextId : Z)
    (accepted : list employee) (rejected : list rejection)
    (cands : list candidate) : list employee * list rejection :=
  match cands with
  | [] => (accepted, rejected)
  | c :: cands' =>
      if negb (truthy (externalCode c)) || negb (truthy (displayName c)) then
        reconcile roster nextId accepted rejected cands'
      else if existsb (fun a => sameCode (empnid a) (externalCode c)) accepted then
        reconcile roster nextId accepted
          (rejected ++ [Rejection (cand_row c) (externalCode c) (displayName c)
                                  DuplicateInBatch])
          cands'
      else if existsb (fun m => sameCode (empnid m) (externalCode c)) roster then
        reconcile roster nextId accepted
          (rejected ++ [Rejection (cand_row c) (externalCode c) (displayName c)
                                  DuplicateInRoster])
          cands'
      else
        reconcile roster nextId
          (accepted ++ [Employee (nextId + Z.of_nat (length accepted) + 1)
                                 (externalCode c) (displayName c) (notes c)])
          rejected cands'
  end.

(** The candidate a sheet row stands for; the row at index [i] of the sheet
    is reported as row [i + 1]. *)
Definition candidateOf (empIdIndex empNameIndex : nat) (interestsIndex : option nat)
    (i : Z) (row : list cell) : candidate :=
  Candidate (i + 1) (cellText row empIdIndex) (cellText row empNameIndex)
    (match interestsIndex with
     | Some k => cellText row k
     | None => ""
     end).

Fixpoint candidatesOf (empIdIndex empNameIndex : nat) (interestsIndex : option nat)
    (i : Z) (rows : list (list cell)) : list candidate :=
  match rows with
  | [] => []
  | row :: rows' =>
      candidateOf empIdIndex empNameIndex interestsIndex i row
      :: candidatesOf empIdIndex empNameIndex interestsIndex (i + 1) rows'
  end.

(** How the handler words the two reasons. *)
Definition reasonText (r : reason) : string :=
  match r with
  | DuplicateInBatch => "Duplicate Employee ID in Excel file"
  | DuplicateInRoster => "Employee ID already exists in system"
  end.

Definition duplicateOf (r : rejection) : duplicate :=
  Duplicate (rej_row r) (rej_externalCode r) (rej_displayName r)
            (reasonText (rej_reason r)).

(** The batch of the spec's example, as data rows with the code in column 0
    and the name in column 1, and two sheets with a header row. *)
Definition exampleBatch : list (list cell) :=
  [[textCell "E1"; textCell "A"];
   [textCell "e1"; textCell "B"];
   [textCell "E2"; textCell "C"]].

Definition headerRow : list cell :=
  [textCell "Employee_ID"; textCell "Employee_Name"].

Definition cleanSheet : upload :=
  Sheet [headerRow; [textCell "E1"; textCell "A"]].

Definition clashingSheet : upload :=
  Sheet (headerRow :: exampleBatch).

(** Two snapshots as a hand-edited or foreign store may hold them: one with
    a padded copy of an identifier, one with a name made of blanks. *)
Definition paddedSnapshot : Storage :=
  mkStorage
    (Snapshot [Some (RawEmployee (Some 1) (Some "E1") (Some "A") None);
               Some (RawEmployee (Some 2) (Some " E1") (Some "B") None)])
    None.

Definition blankNameSnapshot : Storage :=
  mkStorage
    (Snapshot [Some (RawEmployee (Some 1) (Some "E1") (Some "  ") None)])
    None.

(** ** What a stored member should look like

    The identifier and the name are not empty and neither starts nor ends
    with whitespace. *)

Definition wellFormedText (s : string) : Prop :=
  truthy s = true
  /\ startsWithWhitespace s = false
  /\ endsWithWhitespace s = false.

Definition wellFormedMember (e : employee) : Prop :=
  wellFormedText (empnid e) /\ wellFormedText (name e).

(** A raw record whose identifier and name are stored already trimmed, as
    every record the component itself wrote is. *)
Definition trimmedRecord (r : option rawEmployee) : Prop :=
  match r with
  | Some (RawEmployee _ (Some c) (Some n) _) => trim c = c /\ trim n = n
  | _ => True
  end.

(** A member that a load accepts and stores unchanged. *)
Definition cleanMember (e : employee) : Prop :=
  id e <> 0
  /\ truthy (empnid e) = true /\ truthy (name e) = true
  /\ trim (empnid e) = empnid e /\ trim (name e) = name e
  /\ trimOrEmpty (interests e) = interests e.

Definition loweredCodes (emps : list employee) : list string :=
  List.map (fun e => toLowerCase (empnid e)) emps.

Definition byId (a b : employee) : Prop := id a <= id b.

(** ** Loop invariants *)

(** What the import loop keeps true of its accumulators: the set of seen
    codes is that of the accepted rows, and the counter has advanced by their
    number. *)
Definition importInv (last : Z) (acc : importAcc) : Prop :=
  seenInFile acc
    = list_to_set (List.map (fun emp => toLowerCase (empnid emp)) (newEmployees acc))
  /\ currentLastId acc = last + Z.of_nat (length (newEmployees acc)).

(** What the load of trimmed records keeps true of its accumulators. *)
Definition loadInv (acc : loadAcc) : Prop :=
  Forall cleanMember (uniqueEmployees acc)
  /\ NoDup (loweredCodes (uniqueEmployees acc))
  /\ seenEmpnids acc = list_to_set (loweredCodes (uniqueEmployees acc))
  /\ 0 <= maxId acc
  /\ Forall (fun e => id e <= maxId acc) (uniqueEmployees acc).

(** The lower-cased, trimmed header cells of [headerRow]. *)
Definition exampleHeaders : list string :=
  List.map (fun h => trim (toLowerCase (cell_string h))) headerRow.

(** ** The remaining handlers and derived values *)

(** The three inputs of the form, by their [name] attribute. *)
Inductive formField :=
  | EmpnidField
  | NameField
  | InterestsField.

(** [handleChange]: [e.target.name] selects the field that takes
    [e.target.value]; the error is cleared. *)
Definition handleChange (st : State) (field : formField) (value : string) : State :=
  setError ""
    (match field with
     | EmpnidField => setFormData value (formData_name st) (formData_interests st) st
     | NameField => setFormData (formData_empnid st) value (formData_interests st) st
     | InterestsField => setFormData (formData_empnid st) (formData_name st) value st
     end).

Definition handleEdit (st : State) (employee : employee) : State :=
  setError ""
    (setEditingId (Some (id employee))
      (setFormData (empnid employee) (name employee) (interests employee) st)).

Definition handleCancel (st : State) : State :=
  setError "" (setEditingId None (setFormData "" "" "" st)).

(** [onSubmit={editingId ? handleUpdate : handleCreate}]: the number 0 is
    falsy like [null]. *)
Definition handleSubmit (st : State) : State :=
  match editingId st with
  | Some eid => if bool_decide (eid = 0) then handleCreate st else handleUpdate st
  | None => handleCreate st
  end.

Definition handleCloseSlotSelection (st : State) : State :=
  setSelectedSlot None
    (setAvailableSlots []
      (setCurrentDrawingEmployee None
        (setShowSlotSelection false st))).

(** [getSecretSantaAssignment]: the member assigned to [employeeId], if the
    map holds a truthy id for it and the roster a member of that id. *)
Definition getSecretSantaAssignment (st : State) (employeeId : Z) : option employee :=
  match secretSantaAssignments st !! employeeId with
  | Some assignedId =>
      if bool_decide (assignedId = 0) then None
      else List.find (fun emp => bool_decide (id emp = assignedId)) (employees st)
  | None => None
  end.

(** When a row of the table offers its Draw button: the member has no
    assignment to show and the roster has at least two members. *)
Definition drawButtonShown (st : State) (employee : employee) : bool :=
  match getSecretSantaAssignment st (id employee) with
  | Some _ => false
  | None => bool_decide (2 <= length (employees st))%nat
  end.

(** [employee.id.toString()] for an id that is a safe integer: the decimal
    digits of the integer, after a minus sign when it is negative. *)
Definition numberToString (z : Z) : string :=
  NilZero.string_of_int (Z.to_int z).

(** The test [filteredEmployees] applies to a member once the query is known
    not to be blank; [query] is [searchQuery.toLowerCase().trim()]. *)
Definition matchesQuery (query : string) (employee : employee) : bool :=
  includes (toLowerCase (name employee)) query
  || includes (toLowerCase (empnid employee)) query
  || includes (numberToString (id employee)) query
  || (truthy (interests employee)
      && includes (toLowerCase (interests employee)) query).

(** [filteredEmployees], for a roster and the content of the search box. *)
Definition filteredEmployees (emps : list employee) (searchQuery : string)
    : list employee :=
  List.filter
    (fun employee =>
       if negb (truthy (trim searchQuery)) then true
       else matchesQuery (trim (toLowerCase searchQuery)) employee)
    emps.

(** ** Invariants of the stores *)

Definition idsOf (emps : list employee) : list Z := List.map id emps.

(** The roster as the handlers build it: every member is clean, identifiers
    are unique up to case, ids are positive and strictly increasing along the
    list, and the counter is not below any of them. *)
Definition rosterInv (st : State) : Prop :=
  Forall cleanMember (employees st)
  /\ NoDup (loweredCodes (employees st))
  /\ StronglySorted Z.lt (idsOf (employees st))
  /\ Forall (fun e => 0 < id e <= lastId st) (employees st)
  /\ 0 <= lastId st.

(** Every key and every value of the assignment map is the id of a member. *)
Definition assignmentsWithinRoster (st : State) : Prop :=
  forall k v, secretSantaAssignments st !! k = Some v ->
    k ∈ idsOf (employees st) /\ v ∈ idsOf (employees st).

(** A data row that the import neither skips as empty nor for a missing
    identifier or name. *)
Definition eligibleRow (empIdIndex empNameIndex : nat) (row : list cell) : bool :=
  negb (bool_decide (row = []))
  && truthy (cellText row empIdIndex) && truthy (cellText row empNameIndex).

(** A file the import turns down before it looks at any data row. *)
Definition rejectedFile (file : upload) : Prop :=
  match file with
  | NoFile | Unreadable => True
  | Sheet [] | Sheet [_] => True
  | Sheet (header :: _ :: _) =>
      let headers := List.map (fun h => trim (toLowerCase (cell_string h))) header in
      findIndex isEmpIdHeader headers = None
      \/ findIndex isEmpNameHeader headers = None
  end.

(** ** Concrete inputs for the further properties *)

(** Alice, Bob and Carol with the counter where three creations leave it. *)
Definition office : State := setLastId 3 (rosterOf [alice; bob; carol]).

(** A form asking for Alice's identifier in another case, with blanks, and
    a form asking for a new one. *)
Definition takenIdentifierForm : State := setFormData " e1 " "Zoe" "" office.

Definition newMemberForm : State := setFormData " E9 " " Zoe " "" office.

(** The office after a bulk draw that went round the table. *)
Definition officeAfterDraw : State :=
  setSecretSantaAssignments {[ 1 := 2; 2 := 3; 3 := 1 ]} office.

(** A sheet whose header names no identifier column. *)
Definition namesOnlySheet : upload :=
  Sheet [[textCell "Employee_Name"]; [textCell "Zoe"]].

(** A sheet with two new members around a row that takes Alice's
    identifier, and the two members as the office numbers them. *)
Definition newcomersBatch : list (list cell) :=
  [[textCell "E9"; textCell "Zoe"];
   [textCell "e1"; textCell "Al"];
   [textCell "E10"; textCell "Yan"]].

Definition newcomersSheet : upload := Sheet (headerRow :: newcomersBatch).

Definition zoe : employee := Employee 4 "E9" "Zoe" "".
Definition yan : employee := Employee 5 "E10" "Yan" "".

(** What the import loop keeps true of the rows it accepts, for a roster
    [emps] and a counter [last]: their ids follow the counter one by one,
    they are clean, and their identifiers collide neither with each other
    nor with the roster. *)
Definition importAcceptedInv (emps : list employee) (last : Z) (acc : importAcc)
    : Prop :=
  importInv last acc
  /\ idsOf (newEmployees acc)
     = seqZ (last + 1) (Z.of_nat (length (newEmployees acc)))
  /\ Forall cleanMember (newEmployees acc)
  /\ NoDup (loweredCodes (emps ++ newEmployees acc)).


(** The position the bulk draw reads a member's target from when the ids of
    the roster are pairwise different: the member's own position in the
    shuffled array, or the next one, circularly, when the member sits there. *)
Definition targetIndex (n : nat) (shuffled : list employee) (i : nat) (eid : Z)
    : nat :=
  match shuffled !! i with
  | Some s => if bool_decide (eid = id s) then ((i + 1) mod n)%nat else i
  | None => i
  end.

(** The exchange of two positions. *)
Definition transpose (i j k : nat) : nat :=
  if bool_decide (k = i) then j else if bool_decide (k = j) then i else k.


(** The office once Alice has drawn Carol. *)
Definition officeAfterAlice : State :=
  setSecretSantaAssignments {[ 1 := 3 ]} office.

(** A snapshot with a repeated identifier and a record without a name. *)
Definition untidySnapshot : Storage :=
  mkStorage
    (Snapshot [Some (RawEmployee (Some 7) (Some "E7") (Some "Gus") (Some " golf "));
               Some (RawEmployee (Some 2) (Some "e7") (Some "Hal") None);
               Some (RawEmployee (Some 5) (Some "E5") None None);
               None;
               Some (RawEmployee (Some 4) (Some "E4") (Some "Ida") None)])
    (Some 3).


(** ** Generating a hundred sample members *)

(** The table of names of [handleGenerate100Employees]. *)
Definition sampleNames : list string :=
  [
   "Rajesh Kumar"; "Priya Sharma"; "Amit Patel"; "Sneha Reddy";
   "Vikram Singh"; "Anjali Mehta"; "Rahul Gupta"; "Kavita Desai";
   "Suresh Iyer"; "Meera Joshi"; "Arjun Nair"; "Divya Menon";
   "Kiran Rao"; "Pooja Shah"; "Manoj Verma"; "Swati Agarwal";
   "Nikhil Malhotra"; "Ritu Kapoor"; "Deepak Chawla"; "Shilpa Jain";
   "Ravi Thakur"; "Neha Bansal"; "Sandeep Khanna"; "Anita Chopra";
   "Vivek Dutta"; "Kavya Srinivasan"; "Rohit Agarwal"; "Sunita Reddy";
   "Gaurav Mishra"; "Lakshmi Nair"; "Pankaj Singh"; "Radha Iyer";
   "Harsh Shah"; "Sarika Deshmukh"; "Yash Mehta"; "Ananya Krishnan";
   "Karan Malhotra"; "Jyoti Sharma"; "Tarun Patel"; "Sonia Gupta";
   "Aditya Joshi"; "Preeti Rao"; "Varun Kumar"; "Madhuri Nair";
   "Abhishek Reddy"; "Shruti Iyer"; "Rishabh Agarwal"; "Deepika Menon";
   "Siddharth Shah"; "Aishwarya Rao"; "Kunal Verma"; "Nisha Kapoor";
   "Akash Chawla"; "Tanvi Jain"; "Mohit Thakur"; "Isha Bansal";
   "Rohan Khanna"; "Pallavi Chopra"; "Dev Dutta"; "Anushka Srinivasan";
   "Sahil Agarwal"; "Riya Reddy"; "Kartik Mishra"; "Snehal Nair";
   "Jayesh Iyer"; "Trisha Mehta"; "Dhruv Krishnan"; "Ishita Malhotra";
   "Arnav Sharma"; "Maya Patel"; "Vedant Gupta"; "Zara Joshi";
   "Reyansh Rao"; "Avni Kumar"; "Aarav Reddy"; "Kiara Iyer";
   "Aryan Agarwal"; "Anika Menon"; "Vihaan Shah"; "Saanvi Rao";
   "Advik Verma"; "Aadhya Kapoor"; "Arhaan Chawla"; "Anvi Jain";
   "Ayaan Thakur"; "Ira Bansal"; "Ahaan Khanna"; "Myra Chopra";
   "Aarush Dutta"; "Aaradhya Srinivasan"; "Vivaan Agarwal"; "Anaya Reddy";
   "Atharv Mishra"; "Avyaan Nair"; "Akshara Iyer"; "Reyaan Mehta";
   "Aariz Krishnan"; "Aarohi Malhotra"; "Arin Sharma"; "Aryahi Patel";
   "Ahaan Gupta"; "Aaradhya Joshi"; "Ayaansh Rao"; "Avishi Kumar";
   "Aaravya Reddy"
  ].

(** [String(n)] for a counter, a natural number. *)
Definition natToString (n : nat) : string :=
  NilEmpty.string_of_uint (Nat.to_uint n).

(** [s.padStart(targetLength, pad)] for a pad of one character. *)
Fixpoint padding (n : nat) (pad : ascii) : string :=
  match n with
  | O => EmptyString
  | S n' => String pad (padding n' pad)
  end.

Definition padStart (targetLength : nat) (pad : ascii) (s : string) : string :=
  padding (targetLength - String.length s) pad ++ s.

(** [`EMP${String(i + 1).padStart(3, '0')}`] *)
Definition sampleEmpnid (i : nat) : string :=
  "EMP" ++ padStart 3 "0" (natToString (i + 1)).

(** [sampleNames[i] || `Employee ${i + 1}`] *)
Definition sampleName (i : nat) : string :=
  match sampleNames !! i with
  | Some n => if truthy n then n else "Employee " ++ natToString (i + 1)
  | None => "Employee " ++ natToString (i + 1)
  end.

(** The condition of the inner [while], for the candidate identifier. *)
Definition empnidTaken (existingEmpnids : gset string) (newEmployees : list employee)
    (code : string) : bool :=
  bool_decide (toLowerCase code ∈ existingEmpnids)
  || existsb (fun emp => bool_decide (toLowerCase (empnid emp) = toLowerCase code))
             newEmployees.

(** The inner [while], entered with the candidate [code] and the value of
    [counter]; [fuel] bounds the number of turns, and [None] stands for a
    loop that has not ended when the fuel is spent. *)
Fixpoint freeEmpnid (fuel : nat) (i : nat) (existingEmpnids : gset string)
    (newEmployees : list employee) (code : string) (counter : nat) : option string :=
  if empnidTaken existingEmpnids newEmployees code then
    match fuel with
    | O => None
    | S fuel' =>
        freeEmpnid fuel' i existingEmpnids newEmployees
          (sampleEmpnid i ++ "-" ++ natToString counter) (counter + 1)
    end
  else Some code.

(** The [for] loop from index [i] on, with [remaining] turns to go;
    [currentLastId++] adds one as long as the counter is a safe integer. *)
Fixpoint generateFrom (fuel : nat) (remaining : nat) (i : nat)
    (existingEmpnids : gset string) (newEmployees : list employee)
    (currentLastId : Z) : option (list employee * Z) :=
  match remaining with
  | O => Some (newEmployees, currentLastId)
  | S remaining' =>
      match freeEmpnid fuel i existingEmpnids newEmployees (sampleEmpnid i) 1 with
      | Some code =>
          generateFrom fuel remaining' (i + 1) existingEmpnids
            (newEmployees ++ [Employee (currentLastId + 1) code (sampleName i) ""])
            (currentLastId + 1)
      | None => None
      end
  end.

(** [handleGenerate100Employees]; [confirmed] is the answer of
    [window.confirm].  Each inner loop is given as many turns as there are
    identifiers that can be taken at all, which it never needs in full (see
    [handleGenerate100Employees_adds_a_hundred]). *)
Definition handleGenerate100Employees (st : State) (confirmed : bool) : option State :=
  if confirmed then
    match generateFrom (length (employees st) + 100) 100 0
            (existingEmpnidsOf (employees st)) [] (lastId st) with
    | Some (newEmployees, currentLastId) =>
        Some (setError ""
               (setEmployees (employees st ++ newEmployees)
                 (setLastId currentLastId st)))
    | None => None
    end
  else Some st.

(** A string without any whitespace in it. *)
Fixpoint noWhitespace (s : string) : bool :=
  match s with
  | EmptyString => true
  | String c s' => negb (isWhitespace c) && noWhitespace s'
  end.

(** The [k]-th identifier the inner loop tries for index [i]. *)
Definition candidateEmpnid (i k : nat) : string :=
  match k with
  | O => sampleEmpnid i
  | S _ => sampleEmpnid i ++ "-" ++ natToString k
  end.

(** The lower-cased identifiers that are taken for the inner loop. *)
Definition takenCodes (existingEmpnids : gset string) (newEmployees : list employee)
    : gset string :=
  existingEmpnids ∪ list_to_set (loweredCodes newEmployees).

(** The member open in the form, if any, is a member of the roster. *)
Definition editingRefersToMember (st : State) : Prop :=
  match editingId st with
  | Some eid => eid ∈ idsOf (employees st)
  | None => True
  end.

(** The office with Bob open in the form. *)
Definition officeEditingBob : State := handleEdit office bob.

(** A form that holds the id of no member, as no handler leaves it. *)
Definition staleEditForm : State := setEditingId (Some 9) newMemberForm.

(** * Properties *)

(** ** Random indices stay in range *)

Lemma randomIndex_lt (r : Q) (n : nat) :
  inUnitInterval r -> (0 < n)%nat -> (randomIndex r n < n)%nat.
Proof.
  intros [H0 H1] Hn. unfold randomIndex.
  set (q := (r * inject_Z (Z.of_nat n))%Q).
  assert (Hn' : (0 < inject_Z (Z.of_nat n))%Q).
  { rewrite <- (Zlt_Qlt 0). lia. }
  assert (Hlo : 0 <= Qfloor q).
  { change 0 with (Qfloor 0). apply Qfloor_resp_le.
    apply Qmult_le_0_compat; [done | by apply Qlt_le_weak]. }
  assert (Hhi : Qfloor q < Z.of_nat n).
  { rewrite Zlt_Qlt. eapply Qle_lt_trans; [apply Qfloor_le |].
    unfold q. rewrite <- (Qmult_1_l (inject_Z (Z.of_nat n))) at 2.
    apply Qmult_lt_compat_r; done. }
  lia.
Qed.

(** ** Trimming *)

Lemma trimStart_no_leading (s : string) :
  startsWithWhitespace (trimStart s) = false.
Proof.
  induction s as [|c s IH]; [done|]. cbn.
  destruct (isWhitespace c) eqn:Hc; [done|]. cbn. by rewrite Hc.
Qed.

Lemma trimEnd_no_trailing (s : string) :
  endsWithWhitespace (trimEnd s) = false.
Proof.
  induction s as [|c s IH]; [done|]. cbn.
  destruct (trimEnd s) as [|c' t] eqn:Ht.
  - destruct (isWhitespace c) eqn:Hc; [done|]. cbn. by rewrite Hc.
  - cbn in *. done.
Qed.

Lemma trimEnd_no_leading (s : string) :
  startsWithWhitespace s = false -> startsWithWhitespace (trimEnd s) = false.
Proof.
  destruct s as [|c s]; [done|]. cbn. intros Hc.
  destruct (trimEnd s); [by rewrite Hc|done].
Qed.

Lemma trimStart_fixed (s : string) :
  startsWithWhitespace s = false -> trimStart s = s.
Proof. destruct s as [|c s]; [done|]. cbn. by intros ->. Qed.

Lemma trimEnd_idemp (s : string) : trimEnd (trimEnd s) = trimEnd s.
Proof.
  induction s as [|c s IH]; [done|]. cbn.
  destruct (trimEnd s) as [|c' t] eqn:Ht.
  - destruct (isWhitespace c) eqn:Hc; [done|]. cbn. by rewrite Hc.
  - cbn [trimEnd] in *. rewrite IH. done.
Qed.

Lemma trim_no_edge_whitespace (s : string) :
  startsWithWhitespace (trim s) = false /\ endsWithWhitespace (trim s) = false.
Proof.
  unfold trim. split.
  - apply trimEnd_no_leading, trimStart_no_leading.
  - apply trimEnd_no_trailing.
Qed.

Lemma trim_idemp (s : string) : trim (trim s) = trim s.
Proof.
  unfold trim at 1.
  rewrite trimStart_fixed by apply trim_no_edge_whitespace.
  unfold trim. apply trimEnd_idemp.
Qed.

(** ** Deleting a member cascades into the assignments *)

Section Cascade.
Variable d : Z.

Lemma cascade_step_lookup (acc : gmap Z Z) (a k : Z) :
  cascadeStep d acc a !! k =
    if bool_decide (k = a /\ acc !! k = Some d) then None else acc !! k.
Proof.
  unfold cascadeStep. destruct (decide (k = a)) as [->|Hne].
  - do 2 case_bool_decide; rewrite ?lookup_delete_eq; try done; naive_solver.
  - rewrite (bool_decide_eq_false_2 (k = a /\ _)) by naive_solver.
    case_bool_decide; [by rewrite lookup_delete_ne|done].
Qed.

Lemma cascade_fold_lookup (keys : list Z) (acc : gmap Z Z) (k : Z) :
  foldl (cascadeStep d) acc keys !! k =
    if bool_decide (k ∈ keys /\ acc !! k = Some d) then None else acc !! k.
Proof.
  revert acc. induction keys as [|a keys IH]; intros acc.
  - rewrite bool_decide_eq_false_2; [done|].
    intros [H _]. by apply elem_of_nil in H.
  - cbn [foldl]. rewrite IH, cascade_step_lookup.
    repeat case_bool_decide; try done; set_solver.
Qed.

(** The entries that survive are those with neither key nor value [d]. *)
Lemma removeAssignmentsOf_lookup (m : gmap Z Z) (k : Z) :
  removeAssignmentsOf d m !! k =
    if bool_decide (k = d \/ m !! k = Some d) then None else m !! k.
Proof.
  unfold removeAssignmentsOf. rewrite cascade_fold_lookup.
  destruct (decide (k = d)) as [->|Hne].
  - rewrite lookup_delete_eq. rewrite bool_decide_eq_false_2 by naive_solver.
    rewrite bool_decide_eq_true_2; [done | by left].
  - rewrite lookup_delete_ne by done.
    case_bool_decide as H1; case_bool_decide as H2; try done.
    + naive_solver.
    + destruct H2 as [?|H2]; [done|]. exfalso. apply H1. split; [|done].
      apply list_elem_of_fmap. exists (k, d). split; [done|].
      apply elem_of_map_to_list. by rewrite lookup_delete_ne.
Qed.
End Cascade.

(** C7. For every prior assignment map, a confirmed [handleDelete d] leaves
    exactly the entries whose key and whose value both differ from [d]: the
    entry keyed by [d] and every entry valued [d] are gone, so [d] occurs
    neither as a key nor as a value afterwards. *)
Theorem handleDelete_cascades (st : State) (d : Z) :
  let m' := secretSantaAssignments (handleDelete st d true) in
  m' = filter (fun kv => kv.1 <> d /\ kv.2 <> d) (secretSantaAssignments st)
  /\ m' !! d = None
  /\ forall k, m' !! k <> Some d.
Proof.
  assert (Hm : secretSantaAssignments (handleDelete st d true)
               = removeAssignmentsOf d (secretSantaAssignments st)).
  { unfold handleDelete. by case_bool_decide. }
  intros m'. subst m'. rewrite Hm. split; [|split].
  - apply map_eq. intros k. rewrite removeAssignmentsOf_lookup.
    destruct (secretSantaAssignments st !! k) as [v|] eqn:Hk.
    + case_bool_decide as H.
      * symmetry. apply map_lookup_filter_None. right. intros v' Hv'.
        simpl. naive_solver.
      * symmetry. apply map_lookup_filter_Some. simpl. naive_solver.
    + rewrite (proj2 (map_lookup_filter_None _ _ _)); [by case_bool_decide|].
      by left.
  - rewrite removeAssignmentsOf_lookup.
    rewrite bool_decide_eq_true_2; [done|by left].
  - intros k. rewrite removeAssignmentsOf_lookup. case_bool_decide; naive_solver.
Qed.

(** ** The paths that store well-formed members

    The form handlers and the import trim before they test for emptiness. *)

Lemma trim_wellFormed (s : string) :
  truthy (trim s) = true -> wellFormedText (trim s).
Proof. intros H. split; [done|]. apply trim_no_edge_whitespace. Qed.

Lemma validateForm_accepts (st st' : State) :
  validateForm st = (true, st') ->
  truthy (trim (formData_empnid st)) = true
  /\ truthy (trim (formData_name st)) = true.
Proof.
  unfold validateForm.
  destruct (truthy (trim (formData_empnid st))); [|done].
  destruct (truthy (trim (formData_name st))); [|done]. done.
Qed.

Lemma validateForm_rejects (st st' : State) :
  validateForm st = (false, st') -> employees st' = employees st.
Proof.
  unfold validateForm. repeat case_match; by intros [= <-].
Qed.

Lemma handleCreate_wellFormed (st : State) :
  Forall wellFormedMember (employees st) ->
  Forall wellFormedMember (employees (handleCreate st)).
Proof.
  intros Hwf. unfold handleCreate.
  destruct (validateForm st) as [[] st'] eqn:Hv.
  - apply validateForm_accepts in Hv as [Hid Hname].
    case_match; [done|]. cbn.
    apply Forall_app. split; [done|]. apply Forall_singleton.
    split; by apply trim_wellFormed.
  - by rewrite (validateForm_rejects _ _ Hv).
Qed.

Lemma handleUpdate_wellFormed (st : State) :
  Forall wellFormedMember (employees st) ->
  Forall wellFormedMember (employees (handleUpdate st)).
Proof.
  intros Hwf. unfold handleUpdate.
  destruct (validateForm st) as [[] st'] eqn:Hv.
  - apply validateForm_accepts in Hv as [Hid Hname].
    repeat case_match; try done. cbn.
    apply Forall_forall. intros member Hmember.
    apply list_elem_of_In, in_map_iff in Hmember as (old & <- & Hold).
    case_bool_decide.
    + split; by apply trim_wellFormed.
    + rewrite Forall_forall in Hwf. by apply Hwf, list_elem_of_In.
  - by rewrite (validateForm_rejects _ _ Hv).
Qed.

Lemma cellText_wellFormed (row : list cell) (k : nat) :
  truthy (cellText row k) = true -> wellFormedText (cellText row k).
Proof.
  unfold cellText. destruct (cell_truthy (cellAt row k)); [|done].
  apply trim_wellFormed.
Qed.

Lemma importRows_wellFormed (existingEmpnids : gset string)
    (empIdIndex empNameIndex : nat) (interestsIndex : option nat)
    (rows : list (list cell)) (i : Z) (acc : importAcc) :
  Forall wellFormedMember (newEmployees acc) ->
  Forall wellFormedMember
    (newEmployees (importRows existingEmpnids empIdIndex empNameIndex
                     interestsIndex i rows acc)).
Proof.
  revert i acc. induction rows as [|row rows IH]; intros i acc Hwf; [done|].
  cbn. apply IH. unfold importRow.
  case_bool_decide; [done|].
  destruct (truthy (cellText row empIdIndex)) eqn:Hid; [|done].
  destruct (truthy (cellText row empNameIndex)) eqn:Hname; [|done]. cbn.
  repeat case_bool_decide; try done. cbn.
  apply Forall_app. split; [done|]. apply Forall_singleton.
  split; by apply cellText_wellFormed.
Qed.

Lemma handleExcelImport_wellFormed (st : State) (file : upload) :
  Forall wellFormedMember (employees st) ->
  Forall wellFormedMember (pendingImportEmployees st) ->
  Forall wellFormedMember (employees (handleExcelImport st file))
  /\ Forall wellFormedMember (pendingImportEmployees (handleExcelImport st file)).
Proof.
  intros Hemps Hpending. unfold handleExcelImport.
  repeat case_match; try done.
  unfold commitImport.
  match goal with
  | |- context [processRows ?e ?l ?a ?b ?c ?r] =>
      pose proof (importRows_wellFormed (existingEmpnidsOf e) a b c r 1
                    (ImportAcc [] [] ∅ l) (Forall_nil_2 _)) as Hnew;
      fold (processRows e l a b c r) in Hnew
  end.
  repeat case_bool_decide; cbn; try done.
  split; [|done]. by apply Forall_app.
Qed.

Lemma handleImportConfirm_wellFormed (st : State) :
  Forall wellFormedMember (employees st) ->
  Forall wellFormedMember (pendingImportEmployees st) ->
  Forall wellFormedMember (employees (handleImportConfirm st)).
Proof.
  intros Hemps Hpending. unfold handleImportConfirm.
  case_bool_decide; cbn; [|done]. by apply Forall_app.
Qed.

(** ** Spreadsheet import *)

Lemma elem_of_lowered_codes (emps : list employee) (code : string) :
  toLowerCase code ∈
    (list_to_set (List.map (fun emp => toLowerCase (empnid emp)) emps) : gset string)
  <-> existsb (fun a => sameCode (empnid a) code) emps = true.
Proof.
  rewrite elem_of_list_to_set, list_elem_of_In, in_map_iff, existsb_exists.
  unfold sameCode. split; intros [a [H1 H2]]; exists a.
  - split; [done|]. by apply bool_decide_eq_true.
  - apply bool_decide_eq_true in H2. done.
Qed.

Lemma importRow_inv (emps : list employee) (last : Z)
    (empIdIndex empNameIndex : nat) (interestsIndex : option nat)
    (i : Z) (row : list cell) (acc : importAcc) :
  importInv last acc ->
  importInv last
    (importRow (existingEmpnidsOf emps) empIdIndex empNameIndex interestsIndex i row acc).
Proof.
  intros [Hseen Hlast]. unfold importRow.
  repeat (case_bool_decide || case_match); try done.
  all: split; cbn;
    [ rewrite Hseen, List.map_app, list_to_set_app_L; cbn; set_solver
    | rewrite Hlast, length_app; cbn; lia ].
Qed.

Lemma importRows_inv (emps : list employee) (last : Z)
    (empIdIndex empNameIndex : nat) (interestsIndex : option nat)
    (rows : list (list cell)) (i : Z) (acc : importAcc) :
  importInv last acc ->
  importInv last
    (importRows (existingEmpnidsOf emps) empIdIndex empNameIndex interestsIndex
       i rows acc).
Proof.
  revert i acc. induction rows as [|row rows IH]; intros i acc Hinv; [done|].
  cbn. apply IH. by apply importRow_inv.
Qed.

Lemma processRows_counter (emps : list employee) (last : Z)
    (empIdIndex empNameIndex : nat) (interestsIndex : option nat)
    (rows : list (list cell)) :
  let acc := processRows emps last empIdIndex empNameIndex interestsIndex rows in
  currentLastId acc = last + Z.of_nat (length (newEmployees acc)).
Proof.
  apply importRows_inv. split; cbn; [done | lia].
Qed.

(** Whatever the file, an import only ever appends to the roster and never
    lowers the counter; a confirmation never touches the counter. *)
Lemma handleExcelImport_appends (st : State) (file : upload) :
  exists added,
    employees (handleExcelImport st file) = (employees st ++ added)%list
    /\ lastId st <= lastId (handleExcelImport st file).
Proof.
  unfold handleExcelImport.
  repeat case_match; try (exists []; cbn; rewrite app_nil_r; split; [done|lia]).
  match goal with
  | |- context [processRows ?e ?l ?a ?b ?c ?r] =>
      pose proof (processRows_counter e l a b c r) as Hcounter;
      cbn zeta in Hcounter;
      generalize dependent (processRows e l a b c r)
  end.
  intros acc Hcounter. unfold commitImport.
  repeat case_bool_decide; cbn.
  - exists []. rewrite app_nil_r. split; [done|lia].
  - eexists. split; [done|lia].
  - exists []. rewrite app_nil_r. split; [done|lia].
Qed.

Lemma handleImportConfirm_lastId (st : State) :
  lastId (handleImportConfirm st) = lastId st.
Proof. unfold handleImportConfirm. by case_bool_decide. Qed.

(** The loop refines the reconciler of the spec, from any point on. *)
Lemma importRows_reconcile (emps : list employee) (last : Z)
    (empIdIndex empNameIndex : nat) (interestsIndex : option nat)
    (rows : list (list cell)) (i : Z) (acc : importAcc) (rejected : list rejection) :
  importInv last acc ->
  duplicates acc = List.map duplicateOf rejected ->
  let acc' := importRows (existingEmpnidsOf emps) empIdIndex empNameIndex
                interestsIndex i rows acc in
  let res := reconcile emps last (newEmployees acc) rejected
               (candidatesOf empIdIndex empNameIndex interestsIndex i rows) in
  newEmployees acc' = res.1 /\ duplicates acc' = List.map duplicateOf res.2.
Proof.
  revert i acc rejected.
  induction rows as [|row rows IH]; intros i acc rejected Hinv Hdup; [done|].
  cbn [importRows candidatesOf reconcile candidateOf externalCode displayName
       cand_row notes].
  pose proof (importRow_inv emps last empIdIndex empNameIndex interestsIndex
                i row acc Hinv) as Hinv'.
  destruct Hinv as [Hseen Hlast].
  unfold importRow in *.
  case_bool_decide as Hrow.
  { subst row. cbn. apply IH; done. }
  destruct (negb (truthy (cellText row empIdIndex))
            || negb (truthy (cellText row empNameIndex))) eqn:Hmissing.
  { apply IH; done. }
  destruct (existsb _ (newEmployees acc)) eqn:Hbatch.
  { apply elem_of_lowered_codes in Hbatch.
    rewrite bool_decide_eq_true_2 by (by rewrite Hseen).
    rewrite bool_decide_eq_true_2 in Hinv' by (by rewrite Hseen).
    apply (IH _ _ _ Hinv'). cbn. by rewrite Hdup, List.map_app. }
  assert (Hnb : toLowerCase (cellText row empIdIndex) ∉ seenInFile acc).
  { rewrite Hseen, elem_of_lowered_codes. by rewrite Hbatch. }
  rewrite bool_decide_eq_false_2 by done.
  rewrite bool_decide_eq_false_2 in Hinv' by done.
  destruct (existsb _ emps) eqn:Hroster.
  { apply elem_of_lowered_codes in Hroster.
    rewrite bool_decide_eq_true_2 by done.
    rewrite bool_decide_eq_true_2 in Hinv' by done.
    apply (IH _ _ _ Hinv'). cbn. by rewrite Hdup, List.map_app. }
  assert (Hnr : toLowerCase (cellText row empIdIndex) ∉ existingEmpnidsOf emps).
  { unfold existingEmpnidsOf. rewrite elem_of_lowered_codes. by rewrite Hroster. }
  rewrite bool_decide_eq_false_2 by done.
  rewrite bool_decide_eq_false_2 in Hinv' by done.
  rewrite <- Hlast.
  apply (IH _ _ _ Hinv'). done.
Qed.

(** C6. On every roster, counter and batch, the row loop accepts and rejects
    exactly as the reconciler of the spec does: a row with a code and a name
    is compared, case folded, first with the codes accepted earlier in the
    batch and then with the roster, and is rejected with the matching reason.
    On the batch E1/A, e1/B, E2/C against an empty roster it accepts E1 and
    E2 and rejects the second row as a duplicate within the file. *)
Theorem import_reconciles_as_specified (emps : list employee) (last : Z)
    (empIdIndex empNameIndex : nat) (interestsIndex : option nat)
    (rows : list (list cell)) :
  (let acc := processRows emps last empIdIndex empNameIndex interestsIndex rows in
   let res := reconcile emps last [] []
                (candidatesOf empIdIndex empNameIndex interestsIndex 1 rows) in
   newEmployees acc = res.1 /\ duplicates acc = List.map duplicateOf res.2)
  /\ (let acc := processRows [] 0 0 1 None exampleBatch in
      newEmployees acc = [Employee 1 "E1" "A" ""; Employee 2 "E2" "C" ""]
      /\ duplicates acc
         = [Duplicate 3 "e1" "B" "Duplicate Employee ID in Excel file"]).
Proof.
  split.
  - apply (importRows_reconcile emps last empIdIndex empNameIndex interestsIndex
             rows 1 (ImportAcc [] [] ∅ last) []); [|done].
    split; cbn; [done | lia].
  - by vm_compute.
Qed.

(** A column search that does not throw finds what the search over the
    texts of the cells finds. *)
Lemma findHeader_found (p : string -> bool) (header : list cell) (r : option nat) :
  findHeader p (headersOf header) = Some r ->
  findIndex p (List.map (fun h => trim (toLowerCase (cell_string h))) header) = r.
Proof.
  revert r. induction header as [|h header IH]; intros r; cbn.
  - by intros [= <-].
  - destruct (isHole h); [done|]. cbn.
    destruct (p (trim (toLowerCase (cell_string h)))); [by intros [= <-]|].
    unfold headersOf in IH.
    destruct (findHeader p _) as [r'|]; [|done]. cbn.
    intros [= <-]. by rewrite (IH r').
Qed.

(** On a header row without holes no column search throws. *)
Lemma findHeader_no_hole (p : string -> bool) (header : list cell) :
  Forall (fun h => isHole h = false) header ->
  findHeader p (headersOf header)
  = Some (findIndex p (List.map (fun h => trim (toLowerCase (cell_string h))) header)).
Proof.
  induction 1 as [|h header Hh _ IH]; [done|]. cbn. rewrite Hh. cbn.
  destruct (p (trim (toLowerCase (cell_string h)))); [done|].
  unfold headersOf in IH. by rewrite IH.
Qed.

(** A hole in the header row that a column search reaches makes the import
    end in its [catch] branch, whatever the data rows hold: here a hole in
    the first column. *)
Lemma handleExcelImport_header_hole (st : State) (header : list cell)
    (row : list cell) (rows : list (list cell)) :
  handleExcelImport st (Sheet ((undefinedCell :: header) :: row :: rows))
  = setError "Error reading Excel file. Please ensure it is a valid Excel file." st.
Proof. reflexivity. Qed.

(** C3, as the spec states it, fails twice over: a sheet without rejected
    rows is appended to the roster by the import itself, and a sheet with a
    rejected row moves the counter before any confirmation. *)
Lemma import_mutates_before_confirm :
  employees (handleExcelImport initialState cleanSheet) = [Employee 1 "E1" "A" ""]
  /\ employees initialState = []
  /\ lastId (handleExcelImport initialState cleanSheet) = 1
  /\ importDuplicates (handleExcelImport initialState clashingSheet)
     = [Duplicate 3 "e1" "B" "Duplicate Employee ID in Excel file"]
  /\ lastId (handleExcelImport initialState clashingSheet) = 2
  /\ lastId initialState = 0.
Proof. by vm_compute. Qed.

(** C3, amended. For a sheet whose header row has no hole and names both
    mandatory columns, with at least one data row, and a counter that the
    rows leave within the safe integers, the import always advances the
    counter by the number of accepted rows.  With a rejected row it leaves
    the roster as it is and parks the accepted rows, which the confirmation
    then appends without touching the counter; without one it appends the
    accepted rows itself. *)
Theorem import_then_confirm (st : State) (header : list cell)
    (rows : list (list cell)) (empIdIndex empNameIndex : nat) :
  let headers := List.map (fun h => trim (toLowerCase (cell_string h))) header in
  Forall (fun h => isHole h = false) header ->
  findIndex isEmpIdHeader headers = Some empIdIndex ->
  findIndex isEmpNameHeader headers = Some empNameIndex ->
  rows <> [] ->
  safeCounter (lastId st) (length rows) ->
  let acc := processRows (employees st) (lastId st) empIdIndex empNameIndex
               (findIndex isInterestsHeader headers) rows in
  let st' := handleExcelImport st (Sheet (header :: rows)) in
  lastId st' = lastId st + Z.of_nat (length (newEmployees acc))
  /\ (duplicates acc <> [] ->
        employees st' = employees st
        /\ pendingImportEmployees st' = newEmployees acc
        /\ employees (handleImportConfirm st') = (employees st ++ newEmployees acc)%list
        /\ lastId (handleImportConfirm st') = lastId st')
  /\ (duplicates acc = [] ->
        employees st' = (employees st ++ newEmployees acc)%list
        /\ pendingImportEmployees st' = pendingImportEmployees st).
Proof.
  intros headers Hholes HempId HempName Hrows _ acc st'.
  assert (Hst' : st' = commitImport st acc).
  { subst st'. unfold handleExcelImport. destruct rows as [|row rows']; [done|].
    rewrite !(findHeader_no_hole _ header Hholes). fold headers.
    by rewrite HempId, HempName. }
  pose proof (processRows_counter (employees st) (lastId st) empIdIndex empNameIndex
                (findIndex isInterestsHeader headers) rows) as Hcounter.
  fold acc in Hcounter. cbn zeta in Hcounter.
  rewrite Hst'. unfold commitImport.
  destruct (decide (duplicates acc = [])) as [Hnone|Hsome].
  - rewrite (bool_decide_eq_false_2 (duplicates acc <> [])) by naive_solver.
    destruct (decide (newEmployees acc = [])) as [Hempty|Hnew].
    + rewrite (bool_decide_eq_false_2 (newEmployees acc <> [])) by naive_solver.
      cbn. rewrite Hempty, app_nil_r. cbn. split; [lia|]. split; done.
    + rewrite (bool_decide_eq_true_2 (newEmployees acc <> [])) by done.
      cbn. split; [done|]. split; done.
  - rewrite (bool_decide_eq_true_2 (duplicates acc <> [])) by done.
    cbn. split; [done|]. split; [|done]. intros _.
    unfold handleImportConfirm. cbn.
    destruct (decide (newEmployees acc = [])) as [Hempty|Hnew].
    + rewrite (bool_decide_eq_false_2 (newEmployees acc <> [])) by naive_solver.
      cbn. by rewrite Hempty, app_nil_r.
    + rewrite (bool_decide_eq_true_2 (newEmployees acc <> [])) by done. done.
Qed.

(** The amended C3 at work on [clashingSheet]: one row is rejected, the
    counter moves from 0 to 2, the roster stays empty until the confirmation
    appends E1 and E2. *)
Lemma import_then_confirm_clashing_sheet :
  Forall (fun h => isHole h = false) headerRow
  /\ findIndex isEmpIdHeader exampleHeaders = Some 0%nat
  /\ findIndex isEmpNameHeader exampleHeaders = Some 1%nat
  /\ exampleBatch <> []
  /\ safeCounter (lastId initialState) (length exampleBatch)
  /\ lastId (handleExcelImport initialState clashingSheet)
     = lastId initialState
       + Z.of_nat (length (newEmployees
           (processRows (employees initialState) (lastId initialState) 0 1
              (findIndex isInterestsHeader exampleHeaders) exampleBatch)))
  /\ employees (handleExcelImport initialState clashingSheet)
     = employees initialState
  /\ employees (handleImportConfirm (handleExcelImport initialState clashingSheet))
     = [Employee 1 "E1" "A" ""; Employee 2 "E2" "C" ""].
Proof.
  assert (H1 : findIndex isEmpIdHeader exampleHeaders = Some 0%nat)
    by (vm_compute; reflexivity).
  assert (H2 : findIndex isEmpNameHeader exampleHeaders = Some 1%nat)
    by (vm_compute; reflexivity).
  assert (H3 : exampleBatch <> []) by discriminate.
  assert (H4 : Forall (fun h => isHole h = false) headerRow)
    by (repeat constructor).
  assert (H5 : safeCounter (lastId initialState) (length exampleBatch))
    by (unfold safeCounter, maxSafeInteger; cbn; lia).
  destruct (import_then_confirm initialState headerRow exampleBatch 0 1
              H4 H1 H2 H3 H5)
    as (Hcounter & Hrejected & _).
  destruct Hrejected as (Hroster & _ & Hconfirmed & _).
  { vm_compute. discriminate. }
  split; [exact H4|]. split; [exact H1|]. split; [exact H2|]. split; [exact H3|].
  split; [exact H5|].
  split; [exact Hcounter|]. split; [exact Hroster|].
  unfold clashingSheet. rewrite Hconfirmed. vm_compute. reflexivity.
Defined.

(** ** Bulk draw *)

Lemma pairAll_two (A B : employee) (shuffled : list employee) :
  id A <> id B ->
  shuffled = [A; B] \/ shuffled = [B; A] ->
  pairAll [A; B] shuffled = Some (<[id B := id A]> (<[id A := id B]> ∅)).
Proof.
  intros Hne Hsh. assert (Hne' : id B <> id A) by done.
  destruct Hsh as [-> | ->]; unfold pairAll; cbn;
    repeat (first [ rewrite (bool_decide_eq_true_2 (id A = id A)) by done
                  | rewrite (bool_decide_eq_true_2 (id B = id B)) by done
                  | rewrite (bool_decide_eq_false_2 (id A = id B)) by done
                  | rewrite (bool_decide_eq_false_2 (id B = id A)) by done ];
            cbn);
    done.
Qed.

Lemma shuffle_two (random : nat -> Q) (k : nat) (A B : employee) :
  inUnitInterval (random k) ->
  (shuffle random k [A; B]).1 = [A; B] \/ (shuffle random k [A; B]).1 = [B; A].
Proof.
  intros Hr. unfold shuffle. cbn.
  pose proof (randomIndex_lt (random k) 2 Hr) as Hlt.
  destruct (randomIndex (random k) 2) as [|[|j]]; cbn; [by right | by left | lia].
Qed.

(** C5. With exactly two members A and B (of different ids), whatever
    [Math.random] returns, the bulk draw succeeds at its first attempt and
    records A -> B and B -> A. *)
Theorem two_member_draw_is_forced
    (st : State) (A B : employee) (random : nat -> Q) :
  employees st = [A; B] ->
  id A <> id B ->
  (forall k, inUnitInterval (random k)) ->
  secretSantaAssignments (handleSecretSantaDraw st random)
  = {[ id A := id B; id B := id A ]}.
Proof.
  intros Hemps Hne Hrandom. unfold handleSecretSantaDraw. rewrite Hemps.
  rewrite bool_decide_eq_false_2 by (cbn; lia).
  assert (Hdraw : drawAssignments random [A; B]
                  = <[id B := id A]> (<[id A := id B]> ∅)).
  { unfold drawAssignments.
    pose proof (shuffle_two random 0 A B (Hrandom 0%nat)) as Hsh.
    destruct (shuffle random 0 [A; B]) as [shuffled k]. cbn in Hsh.
    unfold maxAttempts. cbn [attemptLoop].
    by rewrite (pairAll_two A B shuffled Hne Hsh). }
  rewrite Hdraw.
  rewrite bool_decide_eq_false_2 by apply insert_non_empty.
  cbn. rewrite insert_empty. apply insert_insert_ne. done.
Qed.

(** C5 at work on Alice and Bob, every random number being 1/2. *)
Lemma two_member_draw_alice_bob :
  employees (rosterOf [alice; bob]) = [alice; bob]
  /\ id alice <> id bob
  /\ (forall k : nat, inUnitInterval ((fun _ => 1#2) k))
  /\ secretSantaAssignments (handleSecretSantaDraw (rosterOf [alice; bob]) (fun _ => 1#2))
     = {[ id alice := id bob; id bob := id alice ]}.
Proof.
  assert (H1 : employees (rosterOf [alice; bob]) = [alice; bob]) by reflexivity.
  assert (H2 : id alice <> id bob) by (cbn; lia).
  assert (H3 : forall k : nat, inUnitInterval ((fun _ => 1#2) k)).
  { intros _. by vm_compute. }
  split; [exact H1|]. split; [exact H2|]. split; [exact H3|].
  exact (two_member_draw_is_forced (rosterOf [alice; bob]) alice bob
           (fun _ => 1#2) H1 H2 H3).
Defined.

(** C1 does not hold of the code.  With three members and the shuffle
    leaving Alice first (every random number 1/2 gives Alice, Carol, Bob),
    the forward scan pairs Alice with Carol, read from position 1 and left
    there, and Bob's own position 1 yields Carol again: Carol is the target
    of both Alice and Bob, and nobody draws Alice. *)
Theorem bulk_draw_reuses_a_target :
  let m := secretSantaAssignments
             (handleSecretSantaDraw (rosterOf [alice; bob; carol]) (fun _ => 1#2)) in
  (shuffle (fun _ => 1#2) 0 [alice; bob; carol]).1 = [alice; carol; bob]
  /\ m = {[ 1 := 3; 2 := 3; 3 := 2 ]}
  /\ m !! 1 = Some 3 /\ m !! 2 = Some 3
  /\ forall k, m !! k <> Some 1.
Proof.
  intros m.
  assert (Hm : m = {[ 1 := 3; 2 := 3; 3 := 2 ]}).
  { subst m. vm_compute. reflexivity. }
  split; [vm_compute; reflexivity|]. split; [exact Hm|]. rewrite Hm.
  split; [vm_compute; reflexivity|]. split; [vm_compute; reflexivity|].
  intros k Hk.
  destruct (decide (k = 1)) as [->|?]; [done|].
  destruct (decide (k = 2)) as [->|?]; [done|].
  destruct (decide (k = 3)) as [->|?]; [done|].
  rewrite !lookup_insert_ne, lookup_singleton_ne in Hk by done. done.
Qed.

(** *** What does hold of every bulk draw

    Every member is a key, no member is its own target and every target is
    a member; only the targets may repeat. *)

Lemma pairFrom_no_fixed_point (n : nat) (shuffled rest : list employee) (i : nat)
    (temp m : gmap Z Z) :
  pairFrom n shuffled i rest temp = Some m ->
  (forall k v, temp !! k = Some v -> k <> v) ->
  forall k v, m !! k = Some v -> k <> v.
Proof.
  revert i temp. induction rest as [|e rest IH]; intros i temp; cbn.
  - intros [= <-]. done.
  - destruct (shuffled !! _) as [s|]; [|done].
    case_bool_decide as Hself; [done|].
    intros Hm Htemp. apply (IH _ _ Hm).
    intros k v. destruct (decide (id e = k)) as [<-|Hk].
    + rewrite lookup_insert_eq. by intros [= <-].
    + rewrite lookup_insert_ne by done. apply Htemp.
Qed.

Lemma pairFrom_dom (n : nat) (shuffled rest : list employee) (i : nat)
    (temp m : gmap Z Z) :
  pairFrom n shuffled i rest temp = Some m ->
  dom m = dom temp ∪ list_to_set (id <$> rest).
Proof.
  revert i temp. induction rest as [|e rest IH]; intros i temp; cbn.
  - intros [= <-]. set_solver.
  - destruct (shuffled !! _) as [s|]; [|done].
    case_bool_decide; [done|].
    intros Hm. rewrite (IH _ _ Hm), dom_insert_L. set_solver.
Qed.

Lemma pairFrom_values (n : nat) (shuffled rest : list employee) (i : nat)
    (temp m : gmap Z Z) :
  pairFrom n shuffled i rest temp = Some m ->
  forall k v, m !! k = Some v -> temp !! k = Some v \/ v ∈ id <$> shuffled.
Proof.
  revert i temp. induction rest as [|e rest IH]; intros i temp; cbn.
  - intros [= <-]. by left.
  - destruct (shuffled !! _) as [s|] eqn:Hs; [|done].
    case_bool_decide; [done|].
    intros Hm k v Hk. destruct (IH _ _ Hm k v Hk) as [Hin|Hin]; [|by right].
    destruct (decide (id e = k)) as [<-|Hne].
    + rewrite lookup_insert_eq in Hin. injection Hin as <-. right.
      apply list_elem_of_fmap. exists s. split; [done|].
      by eapply list_elem_of_lookup_2.
    + rewrite lookup_insert_ne in Hin by done. by left.
Qed.

Lemma swap_elem_of {A} (a : list A) (i j : nat) (x : A) :
  x ∈ swap a i j -> x ∈ a.
Proof.
  unfold swap.
  destruct (a !! j) as [u|] eqn:Hj; [|done].
  destruct (a !! i) as [v|] eqn:Hi; [|done].
  intros Hx. apply list_elem_of_lookup in Hx as [k Hk].
  apply list_lookup_insert_Some in Hk as [(-> & -> & _) | [_ Hk]].
  - by eapply list_elem_of_lookup_2.
  - apply list_lookup_insert_Some in Hk as [(-> & -> & _) | [_ Hk]];
      by eapply list_elem_of_lookup_2.
Qed.

Lemma fisherYates_elem_of (random : nat -> Q) (i k : nat)
    (shuffled : list employee) (x : employee) :
  x ∈ (fisherYates random k i shuffled).1 -> x ∈ shuffled.
Proof.
  revert k shuffled. induction i as [|i IH]; intros k shuffled; cbn; [done|].
  intros Hx. apply IH in Hx. by apply swap_elem_of in Hx.
Qed.

Lemma attemptLoop_result (random : nat -> Q) (fuel k : nat)
    (emps shuffled : list employee) :
  attemptLoop random fuel k emps shuffled = ∅ \/
  exists shuffled',
    (forall x, x ∈ shuffled' -> x ∈ shuffled)
    /\ pairAll emps shuffled' = Some (attemptLoop random fuel k emps shuffled).
Proof.
  revert k shuffled. induction fuel as [|fuel IH]; intros k shuffled; cbn.
  - by left.
  - destruct (pairAll emps shuffled) as [m|] eqn:Hpair.
    + right. by exists shuffled.
    + destruct (shuffle random k shuffled) as [shuffled1 k1] eqn:Hsh.
      destruct (IH k1 shuffled1) as [Hempty | (shuffled' & Hsub & Hpair')].
      * by left.
      * right. exists shuffled'. split; [|done].
        intros x Hx. apply Hsub in Hx.
        apply (fisherYates_elem_of random (length shuffled - 1) k).
        unfold shuffle in Hsh. by rewrite Hsh.
Qed.

Lemma bulk_draw_keys_and_targets (random : nat -> Q) (emps : list employee) :
  let m := drawAssignments random emps in
  m = ∅ \/
  (dom m = list_to_set (id <$> emps)
   /\ forall k v, m !! k = Some v -> k <> v /\ v ∈ id <$> emps).
Proof.
  unfold drawAssignments.
  destruct (shuffle random 0 emps) as [shuffled k] eqn:Hsh. cbn zeta.
  destruct (attemptLoop_result random maxAttempts k emps shuffled)
    as [Hempty | (shuffled' & Hsub & Hpair)]; [by left|].
  right. unfold pairAll in Hpair. split.
  - rewrite (pairFrom_dom _ _ _ _ _ _ Hpair). set_solver.
  - intros key v Hkey. split.
    + by apply (pairFrom_no_fixed_point _ _ _ _ _ _ Hpair).
    + destruct (pairFrom_values _ _ _ _ _ _ Hpair key v Hkey) as [Hin|Hin]; [done|].
      apply list_elem_of_fmap in Hin as (s & -> & Hs).
      apply list_elem_of_fmap. exists s. split; [done|].
      apply Hsub in Hs.
      apply (fisherYates_elem_of random (length emps - 1) 0).
      unfold shuffle in Hsh. by rewrite Hsh.
Qed.

(** ** Individual draws *)

Lemma elem_of_assignedIdsOf (m : gmap Z Z) (v : Z) :
  v ∈ assignedIdsOf m <-> exists k, m !! k = Some v.
Proof.
  unfold assignedIdsOf. rewrite elem_of_list_to_set, list_elem_of_fmap. split.
  - intros [[k v'] [-> H]]. exists k. by apply elem_of_map_to_list.
  - intros [k H]. exists (k, v). split; [done|]. by apply elem_of_map_to_list.
Qed.

(** The pool holds the roster members other than the drawer that are not
    yet anybody's target. *)
Lemma elem_of_availableEmployees (st : State) (employeeId : Z) (e : employee) :
  e ∈ availableEmployees st employeeId <->
  e ∈ employees st /\ id e <> employeeId
  /\ forall k, secretSantaAssignments st !! k <> Some (id e).
Proof.
  unfold availableEmployees. rewrite list_elem_of_In, filter_In, <- list_elem_of_In.
  rewrite andb_true_iff, !negb_true_iff, !bool_decide_eq_false.
  rewrite elem_of_assignedIdsOf. naive_solver.
Qed.

Lemma find_id_Some (emps : list employee) (employeeId : Z) (e : employee) :
  List.find (fun e => bool_decide (id e = employeeId)) emps = Some e ->
  id e = employeeId /\ e ∈ emps.
Proof.
  intros H. apply find_some in H as [Hin Hid].
  apply bool_decide_eq_true in Hid. by rewrite list_elem_of_In.
Qed.

(** A completed draw either leaves the map alone or records a member of
    the pool under the drawer's key. *)
Lemma individualDraw_commit
    (st st' : State) (employeeId : Z) (slotIndex : nat) (r : Q) :
  individualDraw st employeeId slotIndex r = Some st' ->
  secretSantaAssignments st' = secretSantaAssignments st \/
  exists target, target ∈ availableEmployees st employeeId /\
    secretSantaAssignments st' = <[employeeId := id target]> (secretSantaAssignments st).
Proof.
  unfold individualDraw, handleIndividualDraw.
  destruct (availableEmployees st employeeId) as [|e0 pool] eqn:Hpool.
  - intros [= <-]. by left.
  - cbn. unfold slotSelectTimeout. cbn.
    destruct (List.find _ (employees st)) as [drawer|] eqn:Hfind; [|done].
    destruct ((e0 :: pool) !! _) as [target|] eqn:Htarget; [|done].
    intros [= <-]. right. exists target. split.
    + eapply list_elem_of_lookup_2, Htarget.
    + cbn. by apply find_id_Some in Hfind as [-> _].
Qed.

(** A draw for a member of the roster, with a random number in range,
    always completes, and leaves the roster as it was. *)
Lemma individualDraw_total
    (st : State) (employeeId : Z) (slotIndex : nat) (r : Q) :
  inUnitInterval r ->
  (exists e, e ∈ employees st /\ id e = employeeId) ->
  exists st', individualDraw st employeeId slotIndex r = Some st'
              /\ employees st' = employees st.
Proof.
  intros Hr [e [Hin Hid]]. unfold individualDraw, handleIndividualDraw.
  destruct (availableEmployees st employeeId) as [|e0 pool] eqn:Hpool.
  - by eexists.
  - cbn. unfold slotSelectTimeout. cbn.
    destruct (List.find _ (employees st)) as [drawer|] eqn:Hfind.
    2:{ apply list_elem_of_In in Hin. apply (find_none _ _ Hfind e) in Hin.
        by apply bool_decide_eq_false in Hin. }
    destruct ((e0 :: pool) !! _) as [target|] eqn:Htarget.
    2:{ apply lookup_ge_None in Htarget.
        pose proof (randomIndex_lt r (length (e0 :: pool)) Hr) as Hlt.
        cbn in *. lia. }
    by eexists.
Qed.

Lemma individualDraws_total (st : State) (draws : list (Z * nat * Q)) :
  Forall (fun d => inUnitInterval d.2
                   /\ exists e, e ∈ employees st /\ id e = d.1.1) draws ->
  exists st', individualDraws st draws = Some st'.
Proof.
  revert st. induction draws as [|d draws IH]; intros st Hdraws; [by eexists|].
  apply Forall_cons in Hdraws as [[Hr Hmember] Hdraws].
  destruct d as [[employeeId slotIndex] r]. cbn in *.
  destruct (individualDraw_total st employeeId slotIndex r Hr Hmember)
    as (st1 & -> & Hroster).
  apply IH. by rewrite Hroster.
Qed.

(** The target a draw records is not the drawer and was nobody's target
    when the pool was computed. *)
Lemma individualDraw_records_fresh_target
    (st st' : State) (employeeId : Z) (slotIndex : nat) (r : Q) :
  individualDraw st employeeId slotIndex r = Some st' ->
  secretSantaAssignments st' = secretSantaAssignments st \/
  exists target,
    secretSantaAssignments st' = <[employeeId := target]> (secretSantaAssignments st)
    /\ target <> employeeId
    /\ forall k, secretSantaAssignments st !! k <> Some target.
Proof.
  intros Hdraw.
  apply individualDraw_commit in Hdraw as [Heq | (target & Hin & Heq)]; [by left|].
  apply elem_of_availableEmployees in Hin as (_ & Hne & Hfresh).
  right. by exists (id target).
Qed.

(** C2. For every starting assignment map and every sequence of individual
    draws: a member that is its own target afterwards already was in the
    starting map, and two different drawers that share a target afterwards
    already shared it in the starting map.  The draws themselves never record
    a member as its own target nor a target that was a value of the map when
    the pool was computed. *)
Theorem individual_draws_never_self_never_shared
    (st st' : State) (draws : list (Z * nat * Q)) :
  individualDraws st draws = Some st' ->
  (forall k, secretSantaAssignments st' !! k = Some k ->
             secretSantaAssignments st !! k = Some k)
  /\ (forall k1 k2 v, k1 <> k2 ->
        secretSantaAssignments st' !! k1 = Some v ->
        secretSantaAssignments st' !! k2 = Some v ->
        secretSantaAssignments st !! k1 = Some v /\
        secretSantaAssignments st !! k2 = Some v).
Proof.
  revert st. induction draws as [|d draws IH]; intros st;
    [|destruct d as [[employeeId slotIndex] r]].
  - intros [= <-]. naive_solver.
  - cbn. destruct (individualDraw st employeeId slotIndex r) as [st1|] eqn:Hdraw;
      [|done].
    intros Hrest. destruct (IH _ Hrest) as [IHself IHshared].
    apply individualDraw_records_fresh_target in Hdraw
      as [Heq | (target & Heq & Hne & Hfresh)].
    { rewrite <- Heq. done. }
    split.
    + intros k Hk. apply IHself in Hk. rewrite Heq in Hk.
      destruct (decide (employeeId = k)) as [->|Hd].
      * rewrite lookup_insert_eq in Hk. congruence.
      * by rewrite lookup_insert_ne in Hk.
    + intros k1 k2 v Hk H1 H2.
      destruct (IHshared k1 k2 v Hk H1 H2) as [H1' H2'].
      rewrite Heq in H1', H2'.
      destruct (decide (employeeId = k1)) as [<-|Hd1];
        destruct (decide (employeeId = k2)) as [<-|Hd2]; try done.
      * rewrite lookup_insert_eq in H1'. rewrite lookup_insert_ne in H2' by done.
        injection H1' as <-. by apply Hfresh in H2'.
      * rewrite lookup_insert_eq in H2'. rewrite lookup_insert_ne in H1' by done.
        injection H2' as <-. by apply Hfresh in H1'.
      * rewrite lookup_insert_ne in H1', H2' by done. done.
Qed.

(** C2 at work: three draws among Alice, Bob and Carol from an empty map. *)
Lemma individual_draws_three_members :
  individualDraws (rosterOf [alice; bob; carol]) threeDraws = Some afterThreeDraws
  /\ (forall k, secretSantaAssignments afterThreeDraws !! k = Some k ->
                secretSantaAssignments (rosterOf [alice; bob; carol]) !! k = Some k)
  /\ (forall k1 k2 v, k1 <> k2 ->
        secretSantaAssignments afterThreeDraws !! k1 = Some v ->
        secretSantaAssignments afterThreeDraws !! k2 = Some v ->
        secretSantaAssignments (rosterOf [alice; bob; carol]) !! k1 = Some v /\
        secretSantaAssignments (rosterOf [alice; bob; carol]) !! k2 = Some v).
Proof.
  split; [vm_compute; reflexivity|].
  apply (individual_draws_never_self_never_shared
           (rosterOf [alice; bob; carol]) afterThreeDraws threeDraws).
  vm_compute. reflexivity.
Defined.

(** C9. The slot index passed to [handleSlotSelect] has no influence on the
    candidate chosen: two clicks that differ only in the slot index capture
    the same drawer and the same candidate, and the whole draw ends in the
    same state. *)
Theorem slot_index_is_irrelevant
    (st : State) (slotIndex1 slotIndex2 : nat) (r : Q) :
  (handleSlotSelect st slotIndex1 r).2 = (handleSlotSelect st slotIndex2 r).2
  /\ forall employeeId,
       individualDraw st employeeId slotIndex1 r
       = individualDraw st employeeId slotIndex2 r.
Proof.
  split.
  - unfold handleSlotSelect. by destruct (selectedSlot st).
  - intros employeeId. unfold individualDraw.
    destruct (availableEmployees st employeeId); [done|].
    unfold handleSlotSelect.
    destruct (selectedSlot (handleIndividualDraw st employeeId)); [done|].
    unfold slotSelectTimeout. cbn.
    destruct (currentDrawingEmployee _); [|done].
    by destruct (availableSlots _ !! _).
Qed.

(** C8, as the spec states it, fails: Bob is no longer in the roster when
    the timer fires, and Alice is nevertheless recorded as drawing Bob. *)
Lemma stale_selection_is_committed :
  staleDrawClick.2 = Some (PendingSelection (Some alice) (Some bob))
  /\ employees staleDrawAfterDelete = [alice]
  /\ (bob ∉ employees staleDrawAfterDelete)
  /\ secretSantaAssignments staleDrawAfterDelete = ∅
  /\ secretSantaAssignments <$>
       slotSelectTimeout staleDrawAfterDelete (PendingSelection (Some alice) (Some bob))
     = Some {[ 1 := 2 ]}.
Proof.
  split; [by vm_compute|]. split; [by vm_compute|].
  split; [|by vm_compute].
  replace (employees staleDrawAfterDelete) with [alice] by (by vm_compute).
  intros H. apply list_elem_of_singleton in H. discriminate H.
Qed.

(** C8, amended. A selection is committed without looking at the roster
    again: for a drawer of the roster with a non-empty pool, the click
    captures a member of the pool computed at request time, and the timer
    records it under the drawer's key in whatever state it finds. *)
Theorem slot_selection_commits_unchecked
    (st : State) (employeeId : Z) (slotIndex : nat) (r : Q) :
  inUnitInterval r ->
  (exists e, e ∈ employees st /\ id e = employeeId) ->
  availableEmployees st employeeId <> [] ->
  exists target p,
    target ∈ availableEmployees st employeeId
    /\ (handleSlotSelect (handleIndividualDraw st employeeId) slotIndex r).2 = Some p
    /\ forall later : State,
         secretSantaAssignments <$> slotSelectTimeout later p
         = Some (<[employeeId := id target]> (secretSantaAssignments later)).
Proof.
  intros Hr [e [Hin Hid]] Hpool.
  unfold handleIndividualDraw.
  destruct (availableEmployees st employeeId) as [|e0 pool] eqn:Hav; [done|].
  destruct (List.find (fun e => bool_decide (id e = employeeId)) (employees st))
    as [drawer|] eqn:Hfind.
  2:{ apply list_elem_of_In in Hin. apply (find_none _ _ Hfind e) in Hin.
      by apply bool_decide_eq_false in Hin. }
  destruct ((e0 :: pool) !! randomIndex r (length (e0 :: pool))) as [target|] eqn:Ht.
  2:{ apply lookup_ge_None in Ht.
      pose proof (randomIndex_lt r (length (e0 :: pool)) Hr) as Hlt.
      simpl in *. lia. }
  exists target, (PendingSelection (Some drawer) (Some target)).
  split; [by eapply list_elem_of_lookup_2|]. split.
  - cbn in Ht |- *. by rewrite Ht.
  - intros later. cbn. by apply find_id_Some in Hfind as [-> _].
Qed.

(** The amended C8 at work: Alice draws among Alice and Bob. *)
Lemma slot_selection_commits_unchecked_two_members :
  inUnitInterval (1#2)
  /\ (exists e, e ∈ employees (rosterOf [alice; bob]) /\ id e = 1)
  /\ availableEmployees (rosterOf [alice; bob]) 1 <> []
  /\ exists target p,
       target ∈ availableEmployees (rosterOf [alice; bob]) 1
       /\ (handleSlotSelect (handleIndividualDraw (rosterOf [alice; bob]) 1) 0 (1#2)).2
          = Some p
       /\ forall later : State,
            secretSantaAssignments <$> slotSelectTimeout later p
            = Some (<[1 := id target]> (secretSantaAssignments later)).
Proof.
  assert (H1 : inUnitInterval (1#2)) by (by vm_compute).
  assert (H2 : exists e, e ∈ employees (rosterOf [alice; bob]) /\ id e = 1).
  { exists alice. split; [apply list_elem_of_here | reflexivity]. }
  assert (H3 : availableEmployees (rosterOf [alice; bob]) 1 <> []).
  { vm_compute. discriminate. }
  split; [exact H1|]. split; [exact H2|]. split; [exact H3|].
  apply (slot_selection_commits_unchecked (rosterOf [alice; bob]) 1 0 (1#2) H1 H2 H3).
Defined.

(** ** Snapshot load *)

(** C4 does not hold of the code.  The load compares the identifiers as
    stored and keeps them trimmed, so "E1" and " E1" both survive a first
    load as "E1"; loading what that load wrote back drops the second one.
    The counter is 2 after both loads. *)
Theorem reload_drops_a_loaded_member :
  employees (loadSnapshot paddedSnapshot)
  = [Employee 1 "E1" "A" ""; Employee 2 "E1" "B" ""]
  /\ employees (reload paddedSnapshot) = [Employee 1 "E1" "A" ""]
  /\ lastId (loadSnapshot paddedSnapshot) = 2
  /\ lastId (reload paddedSnapshot) = 2.
Proof. repeat split; vm_compute; reflexivity. Qed.

(** C10 does not hold of the code.  The load tests the name before trimming
    it, so a name made of blanks passes the test and is stored empty. *)
Theorem snapshot_load_stores_a_blank_name :
  employees (loadSnapshot blankNameSnapshot) = [Employee 1 "E1" "" ""]
  /\ employees (reload blankNameSnapshot) = [].
Proof. split; vm_compute; reflexivity. Qed.

(** The member the snapshot load keeps from [blankNameSnapshot] is not. *)
Lemma snapshot_load_not_wellFormed :
  ~ Forall wellFormedMember (employees (loadSnapshot blankNameSnapshot)).
Proof.
  intros H. apply Forall_inv in H. destruct H as [_ [H _]]. discriminate H.
Qed.

(** *** Loading twice, when the stored identifiers and names are trimmed *)

Lemma trimOrEmpty_idemp (s : string) : trimOrEmpty (trimOrEmpty s) = trimOrEmpty s.
Proof.
  unfold trimOrEmpty. destruct (truthy s); [|done].
  destruct (truthy (trim s)) eqn:Ht; [apply trim_idemp|].
  by destruct (trim s).
Qed.

Lemma insertById_Permutation (e : employee) (l : list employee) :
  insertById e l ≡ₚ e :: l.
Proof.
  induction l as [|x l IH]; [done|]. cbn. case_bool_decide; [done|].
  rewrite IH. apply Permutation_swap.
Qed.

Lemma sortById_Permutation (l : list employee) : sortById l ≡ₚ l.
Proof.
  induction l as [|x l IH]; [done|]. cbn.
  by rewrite insertById_Permutation, IH.
Qed.

Lemma insertById_sorted (e : employee) (l : list employee) :
  StronglySorted byId l -> StronglySorted byId (insertById e l).
Proof.
  induction l as [|x l IH]; intros Hl; cbn.
  - by repeat constructor.
  - apply StronglySorted_inv in Hl as [Hl Hx]. case_bool_decide as Hle.
    + constructor; [by constructor|]. constructor; [done|].
      eapply Forall_impl; [exact Hx|]. unfold byId. intros; lia.
    + constructor; [by apply IH|].
      rewrite insertById_Permutation. constructor; [unfold byId; lia | done].
Qed.

Lemma sortById_sorted (l : list employee) : StronglySorted byId (sortById l).
Proof.
  induction l as [|x l IH]; cbn; [constructor | by apply insertById_sorted].
Qed.

Lemma sortById_fixed (l : list employee) :
  StronglySorted byId l -> sortById l = l.
Proof.
  induction l as [|x l IH]; [done|]. intros Hl.
  apply StronglySorted_inv in Hl as [Hl Hx].
  change (sortById (x :: l)) with (insertById x (sortById l)).
  rewrite IH by done.
  destruct l as [|y l]; [done|]. cbn.
  apply Forall_inv in Hx. by rewrite bool_decide_eq_true_2.
Qed.

Lemma loadRecord_inv (acc : loadAcc) (r : option rawEmployee) :
  trimmedRecord r -> loadInv acc -> loadInv (loadRecord acc r).
Proof.
  intros Htrim (Hclean & Hnodup & Hseen & Hmax & Hids).
  unfold loadRecord.
  destruct r as [[[i|] [c|] [n|] ints]|]; try done.
  destruct Htrim as [Hc Hn].
  case_bool_decide as Hi; [done|]. cbn.
  destruct (truthy c) eqn:Htc; [|done].
  destruct (truthy n) eqn:Htn; [|done]. cbn.
  case_bool_decide as Hin; [done|]. cbn.
  rewrite Hc, Hn.
  assert (Hnew : toLowerCase c ∉ loweredCodes (uniqueEmployees acc)).
  { intros H. apply Hin. rewrite Hseen. by apply elem_of_list_to_set. }
  split; [|split; [|split; [|split]]]; cbn.
  - apply Forall_app. split; [done|]. apply Forall_singleton.
    repeat split; cbn; try done.
    destruct ints; [apply trimOrEmpty_idemp | done].
  - unfold loweredCodes. rewrite List.map_app. cbn.
    apply NoDup_app. split; [done|]. split; [|apply NoDup_singleton].
    intros x Hx Hx'. apply list_elem_of_singleton in Hx'. by subst x.
  - unfold loweredCodes. rewrite List.map_app, list_to_set_app_L. cbn.
    fold (loweredCodes (uniqueEmployees acc)). rewrite Hseen. set_solver.
  - case_bool_decide; lia.
  - apply Forall_app. split.
    + eapply Forall_impl; [exact Hids|]. cbn. intros. case_bool_decide; lia.
    + apply Forall_singleton. cbn. case_bool_decide; lia.
Qed.

Lemma foldl_loadRecord_inv (raw : list (option rawEmployee)) (acc : loadAcc) :
  Forall trimmedRecord raw -> loadInv acc -> loadInv (foldl loadRecord acc raw).
Proof.
  revert acc. induction raw as [|r raw IH]; intros acc Hraw Hacc; [done|].
  apply Forall_cons in Hraw as [Hr Hraw]. cbn.
  apply IH; [done|]. by apply loadRecord_inv.
Qed.

(** Loading clean members appends them unchanged. *)
Lemma foldl_loadRecord_clean (emps : list employee) (acc : loadAcc) (bound : Z) :
  Forall cleanMember emps ->
  NoDup (loweredCodes emps) ->
  (forall code, code ∈ loweredCodes emps -> code ∉ seenEmpnids acc) ->
  maxId acc <= bound ->
  Forall (fun e => id e <= bound) emps ->
  let acc' := foldl loadRecord acc (serialize emps) in
  uniqueEmployees acc' = (uniqueEmployees acc ++ emps)%list
  /\ maxId acc' <= bound.
Proof.
  revert acc. induction emps as [|e emps IH]; intros acc Hclean Hnodup Hfresh Hmax Hids.
  - cbn. by rewrite app_nil_r.
  - apply Forall_cons in Hclean as [(Hid & Hc & Hn & Htc & Htn & Hti) Hclean].
    apply NoDup_cons in Hnodup as [Hhead Hnodup].
    apply Forall_cons in Hids as [Hide Hids].
    cbn [serialize List.map foldl]. fold (serialize emps).
    assert (Hstep : loadRecord acc
              (Some (RawEmployee (Some (id e)) (Some (empnid e)) (Some (name e))
                                 (Some (interests e))))
            = LoadAcc (uniqueEmployees acc ++ [e])
                ({[ toLowerCase (empnid e) ]} ∪ seenEmpnids acc)
                (if bool_decide (id e > maxId acc) then id e else maxId acc)).
    { unfold loadRecord.
      rewrite (bool_decide_eq_false_2 (id e = 0)) by done.
      rewrite Hc, Hn. cbn.
      rewrite bool_decide_eq_false_2.
      2:{ apply Hfresh. cbn. apply list_elem_of_here. }
      cbn. rewrite Htc, Htn, Hti. by destruct e. }
    rewrite Hstep.
    edestruct (IH (LoadAcc (uniqueEmployees acc ++ [e])
                     ({[ toLowerCase (empnid e) ]} ∪ seenEmpnids acc)
                     (if bool_decide (id e > maxId acc) then id e else maxId acc)))
      as [Hu Hm]; try done.
    + cbn. intros code Hcode Hin. apply elem_of_union in Hin as [Hin|Hin].
      * apply elem_of_singleton in Hin. by subst code.
      * eapply Hfresh; [|exact Hin]. cbn. by apply list_elem_of_further.
    + cbn. case_bool_decide; lia.
    + cbn in Hu. split; [|done]. by rewrite Hu, <- app_assoc.
Qed.

Lemma loadSnapshot_of_Snapshot (sto : Storage) (raw : list (option rawEmployee)) :
  employees_data sto = Snapshot raw ->
  let acc := foldl loadRecord (LoadAcc [] ∅ 0) raw in
  let initialLastId := default 0 (employees_last_id sto) in
  employees (loadSnapshot sto) = sortById (uniqueEmployees acc)
  /\ lastId (loadSnapshot sto)
     = if bool_decide (maxId acc > initialLastId) then maxId acc else initialLastId.
Proof.
  intros Hdata. unfold loadSnapshot. rewrite Hdata. cbn zeta.
  by case_bool_decide.
Qed.

(** On a snapshot whose identifiers and names are trimmed, loading what a
    load wrote back changes neither the roster nor the counter. *)
Lemma reload_of_trimmed_snapshot (sto : Storage) (raw : list (option rawEmployee)) :
  employees_data sto = Snapshot raw ->
  Forall trimmedRecord raw ->
  employees (reload sto) = employees (loadSnapshot sto)
  /\ lastId (reload sto) = lastId (loadSnapshot sto).
Proof.
  intros Hdata Hraw.
  destruct (loadSnapshot_of_Snapshot sto raw Hdata) as [Hemps Hlast].
  set (acc := foldl loadRecord (LoadAcc [] ∅ 0) raw) in *.
  set (sorted := sortById (uniqueEmployees acc)) in *.
  set (initialLastId := default 0 (employees_last_id sto)) in *.
  assert (Hinv : loadInv acc).
  { apply foldl_loadRecord_inv; [done|].
    unfold loadInv. cbn.
    split; [constructor|]. split; [constructor|]. split; [done|].
    split; [done | constructor]. }
  destruct Hinv as (Hclean & Hnodup & _ & Hmax & Hids).
  assert (Hperm : sorted ≡ₚ uniqueEmployees acc) by apply sortById_Permutation.
  assert (Hagain :
    uniqueEmployees (foldl loadRecord (LoadAcc [] ∅ 0) (serialize sorted)) = sorted
    /\ maxId (foldl loadRecord (LoadAcc [] ∅ 0) (serialize sorted)) <= maxId acc).
  { apply (foldl_loadRecord_clean sorted (LoadAcc [] ∅ 0) (maxId acc)); cbn.
    - by rewrite Hperm.
    - unfold loweredCodes. by rewrite Hperm.
    - intros code _. apply not_elem_of_empty.
    - done.
    - by rewrite Hperm. }
  destruct Hagain as [Hu Hm].
  assert (Hpos : lastId (loadSnapshot sto) >= 0 /\ maxId acc <= lastId (loadSnapshot sto)).
  { rewrite Hlast. case_bool_decide; lia. }
  unfold reload.
  destruct (loadSnapshot_of_Snapshot (persist (loadSnapshot sto) sto)
              (serialize (employees (loadSnapshot sto))) eq_refl) as [Hemps2 Hlast2].
  rewrite Hemps2, Hlast2. cbn [persist employees_last_id].
  rewrite (bool_decide_eq_true_2 (lastId (loadSnapshot sto) >= 0)) by apply Hpos.
  cbn [default]. rewrite Hemps. fold sorted.
  rewrite Hu. split.
  - apply sortById_fixed, sortById_sorted.
  - unfold Datatypes.id. rewrite bool_decide_eq_false_2; [done | lia].
Qed.

(** * Further properties of the handlers *)

(** ** The form: create, edit, update *)

Lemma empnidExists_true (emps : list employee) (code : string) :
  empnidExists emps code = true <->
  exists e, e ∈ emps /\ toLowerCase (empnid e) = toLowerCase code.
Proof.
  unfold empnidExists. rewrite existsb_exists. split.
  - intros (e & Hin & He). exists e. split; [by apply list_elem_of_In|].
    by apply bool_decide_eq_true in He.
  - intros (e & Hin & He). exists e. split; [by apply list_elem_of_In|].
    by apply bool_decide_eq_true.
Qed.

Lemma empnidExistsOther_true (emps : list employee) (code : string) (eid : Z) :
  empnidExistsOther emps code eid = true <->
  exists e, e ∈ emps /\ toLowerCase (empnid e) = toLowerCase code /\ id e <> eid.
Proof.
  unfold empnidExistsOther. rewrite existsb_exists. split.
  - intros (e & Hin & He). exists e. split; [by apply list_elem_of_In|].
    apply andb_true_iff in He as [He Hid].
    apply bool_decide_eq_true in He. apply negb_true_iff in Hid.
    by apply bool_decide_eq_false in Hid.
  - intros (e & Hin & He & Hid). exists e. split; [by apply list_elem_of_In|].
    apply andb_true_iff. split; [by apply bool_decide_eq_true|].
    apply negb_true_iff. by apply bool_decide_eq_false.
Qed.

Lemma empnidExistsOther_weaken (emps : list employee) (code : string) (eid : Z) :
  empnidExistsOther emps code eid = true -> empnidExists emps code = true.
Proof.
  rewrite empnidExistsOther_true, empnidExists_true. naive_solver.
Qed.

(** Members of a list with pairwise different lower-cased identifiers are
    told apart by them. *)
Lemma loweredCodes_inj (emps : list employee) (e1 e2 : employee) :
  NoDup (loweredCodes emps) ->
  e1 ∈ emps -> e2 ∈ emps ->
  toLowerCase (empnid e1) = toLowerCase (empnid e2) -> e1 = e2.
Proof.
  intros Hnodup H1 H2 Heq.
  apply list_elem_of_lookup in H1 as [i1 H1].
  apply list_elem_of_lookup in H2 as [i2 H2].
  assert (i1 = i2) as ->; [|congruence].
  eapply (proj1 (NoDup_alt _) Hnodup).
  - unfold loweredCodes. change (List.map ?f ?l) with (f <$> l).
    rewrite list_lookup_fmap, H1. reflexivity.
  - unfold loweredCodes. change (List.map ?f ?l) with (f <$> l).
    rewrite list_lookup_fmap, H2. cbn. by rewrite Heq.
Qed.

Lemma idsOf_inj (emps : list employee) (e1 e2 : employee) :
  StronglySorted Z.lt (idsOf emps) ->
  e1 ∈ emps -> e2 ∈ emps -> id e1 = id e2 -> e1 = e2.
Proof.
  induction emps as [|x emps IH]; intros Hs H1 H2 Heq.
  - by apply elem_of_nil in H1.
  - cbn in Hs. apply StronglySorted_inv in Hs as [Hs Hx].
    rewrite Forall_forall in Hx.
    assert (Hlt : forall e, e ∈ emps -> id x < id e).
    { intros e He. apply Hx. apply list_elem_of_In, in_map. by apply list_elem_of_In. }
    apply elem_of_cons in H1 as [->|H1]; apply elem_of_cons in H2 as [->|H2].
    + done.
    + specialize (Hlt _ H2). lia.
    + specialize (Hlt _ H1). lia.
    + by apply IH.
Qed.

Lemma find_id_of_member (emps : list employee) (e : employee) :
  StronglySorted Z.lt (idsOf emps) -> e ∈ emps ->
  List.find (fun emp => bool_decide (id emp = id e)) emps = Some e.
Proof.
  intros Hs He.
  destruct (List.find _ emps) as [e'|] eqn:Hfind.
  - apply find_id_Some in Hfind as [Hid Hin]. f_equal. by apply (idsOf_inj emps).
  - apply list_elem_of_In in He. apply (find_none _ _ Hfind) in He.
    by apply bool_decide_eq_false in He.
Qed.

Lemma setError_same (st : State) : setError (error st) st = st.
Proof. by destruct st. Qed.

(** X1. A create whose identifier, trimmed and lower-cased, is that of a
    member already in the roster is turned down: nothing but the error
    message changes, whatever the form is otherwise in. *)
Theorem handleCreate_rejects_taken_identifier (st : State) (e : employee) :
  e ∈ employees st ->
  toLowerCase (empnid e) = toLowerCase (trim (formData_empnid st)) ->
  truthy (trim (formData_empnid st)) = true ->
  truthy (trim (formData_name st)) = true ->
  handleCreate st
  = setError "Employee ID already exists. Please use a unique ID." st.
Proof.
  intros Hin Hcode Hid Hname.
  assert (Hexists : empnidExists (employees st) (trim (formData_empnid st)) = true).
  { apply empnidExists_true. by exists e. }
  unfold handleCreate, validateForm. rewrite Hid, Hname. cbn.
  destruct (editingId st) as [eid|].
  - destruct (empnidExistsOther _ _ eid); [done|]. cbn. by rewrite Hexists.
  - by rewrite Hexists.
Qed.

Lemma handleCreate_rejects_taken_identifier_example :
  alice ∈ employees takenIdentifierForm
  /\ toLowerCase (empnid alice) = toLowerCase (trim (formData_empnid takenIdentifierForm))
  /\ truthy (trim (formData_empnid takenIdentifierForm)) = true
  /\ truthy (trim (formData_name takenIdentifierForm)) = true
  /\ handleCreate takenIdentifierForm
     = setError "Employee ID already exists. Please use a unique ID." takenIdentifierForm.
Proof.
  assert (H1 : alice ∈ employees takenIdentifierForm) by apply list_elem_of_here.
  assert (H2 : toLowerCase (empnid alice)
               = toLowerCase (trim (formData_empnid takenIdentifierForm)))
    by (vm_compute; reflexivity).
  assert (H3 : truthy (trim (formData_empnid takenIdentifierForm)) = true)
    by (vm_compute; reflexivity).
  assert (H4 : truthy (trim (formData_name takenIdentifierForm)) = true)
    by (vm_compute; reflexivity).
  split; [exact H1|]. split; [exact H2|]. split; [exact H3|]. split; [exact H4|].
  exact (handleCreate_rejects_taken_identifier takenIdentifierForm alice H1 H2 H3 H4).
Defined.
Lemma cleanMember_trimmed (i : Z) (c n x : string) :
  i <> 0 -> truthy (trim c) = true -> truthy (trim n) = true ->
  cleanMember (Employee i (trim c) (trim n) (trimOrEmpty x)).
Proof.
  intros Hi Hc Hn. unfold cleanMember. cbn [id empnid name interests].
  rewrite !trim_idemp, trimOrEmpty_idemp. done.
Qed.

Lemma idsOf_app (l1 l2 : list employee) :
  idsOf (l1 ++ l2) = (idsOf l1 ++ idsOf l2)%list.
Proof. apply List.map_app. Qed.

Lemma loweredCodes_app (l1 l2 : list employee) :
  loweredCodes (l1 ++ l2) = (loweredCodes l1 ++ loweredCodes l2)%list.
Proof. apply List.map_app. Qed.

Lemma elem_of_idsOf (emps : list employee) (k : Z) :
  k ∈ idsOf emps <-> exists e, e ∈ emps /\ id e = k.
Proof.
  unfold idsOf. rewrite list_elem_of_In, in_map_iff.
  split; intros (e & H1 & H2); exists e; split; try done; by apply list_elem_of_In.
Qed.

Lemma elem_of_loweredCodes (emps : list employee) (code : string) :
  code ∈ loweredCodes emps <-> exists e, e ∈ emps /\ toLowerCase (empnid e) = code.
Proof.
  unfold loweredCodes. rewrite list_elem_of_In, in_map_iff.
  split; intros (e & H1 & H2); exists e; split; try done; by apply list_elem_of_In.
Qed.

(** Appending members whose ids follow the counter keeps the ids sorted. *)
Lemma idsOf_sorted_app (l1 l2 : list employee) (last : Z) :
  StronglySorted Z.lt (idsOf l1) ->
  Forall (fun e => id e <= last) l1 ->
  StronglySorted Z.lt (idsOf l2) ->
  Forall (fun e => last < id e) l2 ->
  StronglySorted Z.lt (idsOf (l1 ++ l2)).
Proof.
  intros H1 Hle H2 Hgt. rewrite idsOf_app. apply StronglySorted_app_2; try done.
  intros a b Ha Hb.
  apply elem_of_idsOf in Ha as (ea & Hea & <-).
  apply elem_of_idsOf in Hb as (eb & Heb & <-).
  rewrite Forall_forall in Hle, Hgt. specialize (Hle _ Hea). specialize (Hgt _ Heb).
  lia.
Qed.

(** X2. While the counter is below the largest safe integer, a create
    keeps the roster invariant, and either leaves the roster and the counter
    alone or appends one member whose id is the counter plus one, which
    becomes the counter. *)
Theorem handleCreate_keeps_roster_invariant (st : State) :
  rosterInv st ->
  safeCounter (lastId st) 1 ->
  rosterInv (handleCreate st)
  /\ ((employees (handleCreate st) = employees st
       /\ lastId (handleCreate st) = lastId st)
      \/ exists e,
           employees (handleCreate st) = (employees st ++ [e])%list
           /\ id e = lastId st + 1
           /\ lastId (handleCreate st) = lastId st + 1).
Proof.
  intros (Hclean & Hcodes & Hsorted & Hids & Hlast) _.
  unfold handleCreate.
  destruct (validateForm st) as [[] st'] eqn:Hv.
  2:{ assert (Hst' : employees st' = employees st /\ lastId st' = lastId st).
      { revert Hv. unfold validateForm.
        repeat case_match; intros [= <-]; done. }
      destruct Hst' as [He Hl]. split; [|left; done].
      unfold rosterInv. by rewrite He, Hl. }
  apply validateForm_accepts in Hv as [Hid Hname].
  destruct (empnidExists (employees st) _) eqn:Hexists.
  { split; [done | by left]. }
  cbn in Hexists. split.
  - unfold rosterInv. cbn. split; [|split; [|split; [|split]]].
    + apply Forall_app. split; [done|]. apply Forall_singleton.
      apply cleanMember_trimmed; [lia | done | done].
    + rewrite loweredCodes_app. apply NoDup_app. split; [done|].
      split; [|apply NoDup_singleton].
      intros code Hcode Hnew. apply list_elem_of_singleton in Hnew. subst code.
      apply elem_of_loweredCodes in Hcode as (e & He & Hcode).
      assert (empnidExists (employees st) (trim (formData_empnid st)) = true);
        [|congruence].
      apply empnidExists_true. by exists e.
    + apply (idsOf_sorted_app _ _ (lastId st)); try done.
      * eapply Forall_impl; [exact Hids|]. cbn. intros; lia.
      * cbn. repeat constructor.
      * apply Forall_singleton. cbn. lia.
    + apply Forall_app. split.
      * eapply Forall_impl; [exact Hids|]. cbn. intros; lia.
      * apply Forall_singleton. cbn. lia.
    + lia.
  - right. eexists. split; [reflexivity|]. done.
Qed.

Lemma office_rosterInv : rosterInv office.
Proof.
  unfold rosterInv. cbn. split; [|split; [|split; [|split]]].
  - repeat constructor; by vm_compute.
  - apply NoDup_ListNoDup. repeat constructor; cbn; intros H;
      repeat (destruct H as [H|H]; [discriminate H|]); done.
  - repeat constructor; cbn; lia.
  - repeat constructor; cbn; lia.
  - lia.
Qed.

Lemma handleCreate_keeps_roster_invariant_example :
  rosterInv newMemberForm
  /\ safeCounter (lastId newMemberForm) 1
  /\ employees (handleCreate newMemberForm)
     = [alice; bob; carol; Employee 4 "E9" "Zoe" ""]
  /\ rosterInv (handleCreate newMemberForm).
Proof.
  assert (H : rosterInv newMemberForm) by exact office_rosterInv.
  assert (Hsafe : safeCounter (lastId newMemberForm) 1)
    by (unfold safeCounter, maxSafeInteger; cbn; lia).
  split; [exact H|]. split; [exact Hsafe|]. split; [vm_compute; reflexivity|].
  exact (proj1 (handleCreate_keeps_roster_invariant newMemberForm H Hsafe)).
Defined.

(** What [handleUpdate] does to the roster when it goes through. *)
Lemma handleUpdate_cases (st : State) :
  (employees (handleUpdate st) = employees st
   /\ lastId (handleUpdate st) = lastId st
   /\ secretSantaAssignments (handleUpdate st) = secretSantaAssignments st)
  \/ exists eid old,
       editingId st = Some eid
       /\ List.find (fun emp => bool_decide (id emp = eid)) (employees st) = Some old
       /\ truthy (trim (formData_empnid st)) = true
       /\ truthy (trim (formData_name st)) = true
       /\ empnidExistsOther (employees st) (trim (formData_empnid st)) eid = false
       /\ handleUpdate st
          = setError ""
              (setEditingId None
                (setFormData "" "" ""
                  (setEmployees
                     (List.map
                        (fun emp =>
                           if bool_decide (id emp = eid)
                           then Employee (id old) (trim (formData_empnid st))
                                  (trim (formData_name st))
                                  (trimOrEmpty (formData_interests st))
                           else emp)
                        (employees st))
                     st))).
Proof.
  unfold handleUpdate.
  destruct (validateForm st) as [[] st'] eqn:Hv.
  2:{ left. revert Hv. unfold validateForm. repeat case_match; intros [= <-]; done. }
  apply validateForm_accepts in Hv as [Hid Hname].
  destruct (editingId st) as [eid|] eqn:Hedit; [|by left].
  destruct (List.find _ (employees st)) as [old|] eqn:Hfind; [|by left].
  cbn [empnid].
  destruct (empnidExistsOther _ _ eid) eqn:Hother; [by left|].
  right. by exists eid, old.
Qed.

(** X3. An update never changes the ids of the roster, in number or in
    order, nor the counter, nor the assignments. *)
Theorem handleUpdate_keeps_ids (st : State) :
  idsOf (employees (handleUpdate st)) = idsOf (employees st)
  /\ lastId (handleUpdate st) = lastId st
  /\ secretSantaAssignments (handleUpdate st) = secretSantaAssignments st.
Proof.
  destruct (handleUpdate_cases st)
    as [(He & Hl & Hm) | (eid & old & _ & Hfind & _ & _ & _ & ->)].
  - by rewrite He, Hl, Hm.
  - cbn. split; [|done]. apply find_id_Some in Hfind as [Hold _].
    unfold idsOf. rewrite List.map_map. apply map_ext. intros emp.
    case_bool_decide; cbn; congruence.
Qed.

(** X4. An update keeps the roster invariant: members stay clean,
    identifiers stay unique up to case, ids stay sorted below the counter. *)
Theorem handleUpdate_keeps_roster_invariant (st : State) :
  rosterInv st -> rosterInv (handleUpdate st).
Proof.
  intros Hinv.
  destruct (handleUpdate_cases st)
    as [(He & Hl & _) | (eid & old & _ & Hfind & Hid & Hname & Hother & Hupd)].
  { unfold rosterInv. by rewrite He, Hl. }
  destruct Hinv as (Hclean & Hcodes & Hsorted & Hids & Hlast).
  apply find_id_Some in Hfind as [Hold Hin].
  set (updated := Employee (id old) (trim (formData_empnid st))
                    (trim (formData_name st)) (trimOrEmpty (formData_interests st)))
    in *.
  set (f := fun emp => if bool_decide (id emp = eid) then updated else emp) in *.
  assert (Hidf : forall emp, id (f emp) = id emp).
  { intros emp. unfold f. case_bool_decide; cbn; congruence. }
  assert (Hidsf : idsOf (List.map f (employees st)) = idsOf (employees st)).
  { unfold idsOf. rewrite List.map_map. by apply map_ext. }
  assert (Hnew : forall emp, emp ∈ employees st -> id emp <> eid ->
                   toLowerCase (empnid emp) <> toLowerCase (empnid updated)).
  { intros emp Hemp Hne Hsame.
    assert (empnidExistsOther (employees st) (trim (formData_empnid st)) eid = true);
      [|congruence].
    apply empnidExistsOther_true. by exists emp. }
  rewrite Hupd. unfold rosterInv. cbn [employees lastId setError setEditingId
    setFormData setEmployees]. rewrite Hidsf.
  split; [|split; [|split; [|split]]]; try done.
  - rewrite Forall_forall in Hclean, Hids. apply Forall_forall. intros e He.
    apply list_elem_of_In, in_map_iff in He as (emp & <- & Hemp).
    apply list_elem_of_In in Hemp. unfold f. case_bool_decide; [|by apply Hclean].
    apply cleanMember_trimmed; try done.
    specialize (Hids _ Hin). lia.
  - clear Hupd Hclean Hids Hidsf Hother.
    induction (employees st) as [|x l IH]; [constructor|].
    cbn in Hsorted. apply StronglySorted_inv in Hsorted as [Hsorted Hx].
    cbn in Hcodes. apply NoDup_cons in Hcodes as [Hxcode Hcodes].
    assert (Hlt : forall e, e ∈ l -> id x < id e).
    { intros e He. rewrite Forall_forall in Hx. apply Hx.
      apply list_elem_of_In, in_map. by apply list_elem_of_In. }
    cbn. apply NoDup_cons. split.
    + intros Hdup. apply elem_of_loweredCodes in Hdup as (e' & He' & Hcode).
      apply list_elem_of_In, in_map_iff in He' as (e & <- & He).
      apply list_elem_of_In in He. specialize (Hlt _ He).
      unfold f in Hcode.
      destruct (decide (id e = eid)) as [Hee|Hee];
        destruct (decide (id x = eid)) as [Hxe|Hxe];
        rewrite ?(bool_decide_eq_true_2 _ Hee), ?(bool_decide_eq_false_2 _ Hee),
          ?(bool_decide_eq_true_2 _ Hxe), ?(bool_decide_eq_false_2 _ Hxe) in Hcode.
      * lia.
      * apply (Hnew x); [apply list_elem_of_here | done | done].
      * apply (Hnew e); [by apply list_elem_of_further | done | done].
      * apply Hxcode. apply elem_of_loweredCodes. by exists e.
    + apply elem_of_cons in Hin as [->|Hin].
      * assert (Hsame : List.map f l = l).
        { rewrite <- (map_id l) at 2. apply map_ext_in. intros e He.
          apply list_elem_of_In in He. specialize (Hlt _ He).
          unfold f. case_bool_decide; [lia | done]. }
        by rewrite Hsame.
      * apply IH; try done.
        intros emp Hemp. apply Hnew. by apply list_elem_of_further.
  - rewrite Forall_forall in Hids. apply Forall_forall. intros e He.
    apply list_elem_of_In, in_map_iff in He as (emp & <- & Hemp).
    apply list_elem_of_In in Hemp. rewrite Hidf. by apply Hids.
Qed.

Lemma handleUpdate_keeps_roster_invariant_example :
  rosterInv (setFormData "E2" "Robert" "chess" (handleEdit office bob))
  /\ employees (handleUpdate (setFormData "E2" "Robert" "chess" (handleEdit office bob)))
     = [alice; Employee 2 "E2" "Robert" "chess"; carol]
  /\ rosterInv (handleUpdate (setFormData "E2" "Robert" "chess" (handleEdit office bob))).
Proof.
  assert (H : rosterInv (setFormData "E2" "Robert" "chess" (handleEdit office bob)))
    by exact office_rosterInv.
  split; [exact H|]. split; [vm_compute; reflexivity|].
  exact (handleUpdate_keeps_roster_invariant _ H).
Defined.

(** X5. Opening a member of the roster in the form and saving it unchanged
    leaves the roster as it was and closes the edit. *)
Theorem handleEdit_then_handleUpdate (st : State) (e : employee) :
  rosterInv st -> e ∈ employees st ->
  employees (handleUpdate (handleEdit st e)) = employees st
  /\ editingId (handleUpdate (handleEdit st e)) = None
  /\ error (handleUpdate (handleEdit st e)) = "".
Proof.
  intros (Hclean & Hcodes & Hsorted & Hids & Hlast) He.
  rewrite Forall_forall in Hclean.
  destruct (Hclean _ He) as (Hid & Hc & Hn & Htc & Htn & Hti).
  assert (Hother : empnidExistsOther (employees st) (empnid e) (id e) = false).
  { apply not_true_is_false. intros H.
    apply empnidExistsOther_true in H as (e' & He' & Hcode & Hne).
    apply Hne. f_equal. by apply (loweredCodes_inj (employees st)). }
  pose proof (find_id_of_member _ _ Hsorted He) as Hfind.
  unfold handleUpdate, validateForm, handleEdit.
  cbn [formData_empnid formData_name formData_interests editingId employees
       setError setEditingId setFormData empnid].
  rewrite Htc, Htn, Hc, Hn. cbn [negb].
  rewrite Hother, Hfind. cbn.
  split; [|done].
  rewrite <- (map_id (employees st)) at 2. apply map_ext_in. intros emp Hemp.
  case_bool_decide as Hsame; [|done].
  rewrite Hti. apply list_elem_of_In in Hemp.
  rewrite (idsOf_inj (employees st) emp e Hsorted Hemp He Hsame). by destruct e.
Qed.

Lemma handleEdit_then_handleUpdate_example :
  rosterInv office /\ bob ∈ employees office
  /\ employees (handleUpdate (handleEdit office bob)) = employees office
  /\ editingId (handleUpdate (handleEdit office bob)) = None
  /\ error (handleUpdate (handleEdit office bob)) = "".
Proof.
  assert (H1 : rosterInv office) by exact office_rosterInv.
  assert (H2 : bob ∈ employees office).
  { apply list_elem_of_further, list_elem_of_here. }
  split; [exact H1|]. split; [exact H2|].
  exact (handleEdit_then_handleUpdate office bob H1 H2).
Defined.
(** ** Delete *)

Lemma elem_of_List_filter (P : employee -> bool) (l : list employee) (e : employee) :
  e ∈ List.filter P l <-> e ∈ l /\ P e = true.
Proof. by rewrite !list_elem_of_In, filter_In. Qed.

Lemma loweredCodes_filter_NoDup (P : employee -> bool) (l : list employee) :
  NoDup (loweredCodes l) -> NoDup (loweredCodes (List.filter P l)).
Proof.
  induction l as [|x l IH]; [done|]. cbn. intros Hnd.
  apply NoDup_cons in Hnd as [Hx Hnd]. destruct (P x); [|by apply IH].
  cbn. apply NoDup_cons. split; [|by apply IH].
  intros Hin. apply Hx. apply elem_of_loweredCodes in Hin as (e & He & Hcode).
  apply elem_of_List_filter in He as [He _].
  apply elem_of_loweredCodes. by exists e.
Qed.

Lemma idsOf_filter_sorted (P : employee -> bool) (l : list employee) :
  StronglySorted Z.lt (idsOf l) -> StronglySorted Z.lt (idsOf (List.filter P l)).
Proof.
  induction l as [|x l IH]; [done|]. cbn. intros Hs.
  apply StronglySorted_inv in Hs as [Hs Hx]. destruct (P x); [|by apply IH].
  cbn. constructor; [by apply IH|].
  rewrite Forall_forall in Hx. apply Forall_forall. intros k Hk.
  apply Hx. apply elem_of_idsOf in Hk as (e & He & <-).
  apply elem_of_List_filter in He as [He _].
  apply elem_of_idsOf. by exists e.
Qed.

Lemma handleDelete_employees (st : State) (d : Z) :
  employees (handleDelete st d true)
  = List.filter (fun emp => negb (bool_decide (id emp = d))) (employees st)
  /\ lastId (handleDelete st d true) = lastId st
  /\ secretSantaAssignments (handleDelete st d true)
     = removeAssignmentsOf d (secretSantaAssignments st).
Proof. unfold handleDelete. by case_bool_decide. Qed.

(** X6. A confirmed delete removes exactly the members of id [d], keeps the
    others in their order and the counter where it was, and keeps the roster
    invariant. *)
Theorem handleDelete_keeps_roster_invariant (st : State) (d : Z) :
  rosterInv st ->
  rosterInv (handleDelete st d true)
  /\ (forall e, e ∈ employees (handleDelete st d true)
                <-> e ∈ employees st /\ id e <> d)
  /\ employees (handleDelete st d true) `sublist_of` employees st
  /\ lastId (handleDelete st d true) = lastId st.
Proof.
  intros (Hclean & Hcodes & Hsorted & Hids & Hlast).
  destruct (handleDelete_employees st d) as (He & Hl & _).
  assert (Hmem : forall e, e ∈ employees (handleDelete st d true)
                           <-> e ∈ employees st /\ id e <> d).
  { intros e. rewrite He, elem_of_List_filter, negb_true_iff, bool_decide_eq_false.
    done. }
  split; [|split; [done|split; [|done]]].
  - unfold rosterInv. rewrite Hl. split; [|split; [|split; [|split]]]; try done.
    + rewrite Forall_forall in Hclean. apply Forall_forall.
      intros e Hin. apply Hclean. by apply Hmem.
    + rewrite He. by apply loweredCodes_filter_NoDup.
    + rewrite He. by apply idsOf_filter_sorted.
    + rewrite Forall_forall in Hids. apply Forall_forall.
      intros e Hin. apply Hids. by apply Hmem.
  - rewrite He. clear. induction (employees st) as [|x l IH]; [done|]. cbn.
    destruct (negb _); [by apply sublist_skip | by apply sublist_cons].
Qed.

Lemma handleDelete_keeps_roster_invariant_example :
  rosterInv office
  /\ employees (handleDelete office 2 true) = [alice; carol]
  /\ rosterInv (handleDelete office 2 true).
Proof.
  assert (H : rosterInv office) by exact office_rosterInv.
  split; [exact H|]. split; [vm_compute; reflexivity|].
  exact (proj1 (handleDelete_keeps_roster_invariant office 2 H)).
Defined.

(** X7. If every key and value of the assignment map is a member's id
    before a confirmed delete, the same holds after it: the cascade leaves
    no entry that mentions the deleted member. *)
Theorem handleDelete_keeps_assignments_within_roster (st : State) (d : Z) :
  assignmentsWithinRoster st ->
  assignmentsWithinRoster (handleDelete st d true).
Proof.
  intros Hwithin k v Hkv.
  destruct (handleDelete_employees st d) as (He & _ & Hm).
  rewrite Hm, removeAssignmentsOf_lookup in Hkv.
  case_bool_decide as Hd; [done|].
  destruct (Hwithin k v Hkv) as [Hk Hv].
  assert (Hkeep : forall i, i ∈ idsOf (employees st) -> i <> d ->
                    i ∈ idsOf (employees (handleDelete st d true))).
  { intros i Hi Hne. apply elem_of_idsOf in Hi as (e & Hin & <-).
    apply elem_of_idsOf. exists e. split; [|done].
    rewrite He. apply elem_of_List_filter. split; [done|].
    by apply negb_true_iff, bool_decide_eq_false. }
  split; apply Hkeep; try done; naive_solver.
Qed.

Lemma officeAfterDraw_within_roster : assignmentsWithinRoster officeAfterDraw.
Proof.
  intros k v Hkv. cbn in Hkv.
  assert (Hcases : (k = 1 /\ v = 2) \/ (k = 2 /\ v = 3) \/ (k = 3 /\ v = 1)).
  { destruct (decide (k = 1)) as [->|?]; [left; by inversion Hkv|].
    destruct (decide (k = 2)) as [->|?]; [right; left; by inversion Hkv|].
    destruct (decide (k = 3)) as [->|?]; [right; right; by inversion Hkv|].
    rewrite !lookup_insert_ne, lookup_singleton_ne in Hkv by done. done. }
  destruct Hcases as [[-> ->]|[[-> ->]|[-> ->]]]; split;
    apply list_elem_of_In; cbn; tauto.
Qed.

Lemma handleDelete_keeps_assignments_within_roster_example :
  assignmentsWithinRoster officeAfterDraw
  /\ secretSantaAssignments (handleDelete officeAfterDraw 2 true) = {[ 3 := 1 ]}
  /\ assignmentsWithinRoster (handleDelete officeAfterDraw 2 true).
Proof.
  assert (H : assignmentsWithinRoster officeAfterDraw)
    by exact officeAfterDraw_within_roster.
  split; [exact H|]. split; [vm_compute; reflexivity|].
  exact (handleDelete_keeps_assignments_within_roster officeAfterDraw 2 H).
Defined.
Lemma handleCreate_cases (st : State) :
  (employees (handleCreate st) = employees st
   /\ lastId (handleCreate st) = lastId st)
  \/ (employees (handleCreate st)
      = (employees st ++
           [Employee (lastId st + 1) (trim (formData_empnid st))
              (trim (formData_name st)) (trimOrEmpty (formData_interests st))])%list
      /\ lastId (handleCreate st) = lastId st + 1).
Proof.
  unfold handleCreate.
  destruct (validateForm st) as [[] st'] eqn:Hv.
  - destruct (empnidExists _ _); [by left | by right].
  - left. revert Hv. unfold validateForm. repeat case_match; intros [= <-]; done.
Qed.

(** X8. Ids are not reused while the counter is below the largest safe
    integer: once a member is deleted, no member created afterwards gets its
    id, because the delete leaves the counter where it was and a create only
    ever uses the counter plus one. *)
Theorem deleted_id_is_not_reused (st : State) (d : Z) (c n i : string) (e : employee) :
  rosterInv st ->
  safeCounter (lastId st) 1 ->
  d ∈ idsOf (employees st) ->
  e ∈ employees (handleCreate (setFormData c n i (handleDelete st d true))) ->
  id e <> d.
Proof.
  intros (_ & _ & _ & Hids & _) _ Hd He.
  destruct (handleDelete_employees st d) as (Hdel & Hlast & _).
  assert (Hbound : d <= lastId st).
  { apply elem_of_idsOf in Hd as (m & Hm & <-).
    rewrite Forall_forall in Hids. specialize (Hids _ Hm). lia. }
  assert (Hold : forall m, m ∈ employees (handleDelete st d true) -> id m <> d).
  { intros m Hm. rewrite Hdel in Hm. apply elem_of_List_filter in Hm as [_ Hm].
    by apply negb_true_iff, bool_decide_eq_false in Hm. }
  destruct (handleCreate_cases (setFormData c n i (handleDelete st d true)))
    as [[Hsame _] | [Hnew _]].
  - rewrite Hsame in He. by apply Hold.
  - rewrite Hnew in He. apply elem_of_app in He as [He|He]; [by apply Hold|].
    apply list_elem_of_singleton in He. subst e.
    cbn [id lastId setFormData]. lia.
Qed.

Lemma deleted_id_is_not_reused_example :
  rosterInv office
  /\ safeCounter (lastId office) 1
  /\ 2 ∈ idsOf (employees office)
  /\ Employee 4 "E2" "Bea" ""
       ∈ employees (handleCreate (setFormData "E2" "Bea" "" (handleDelete office 2 true)))
  /\ id (Employee 4 "E2" "Bea" "") <> 2.
Proof.
  assert (H1 : rosterInv office) by exact office_rosterInv.
  assert (Hsafe : safeCounter (lastId office) 1)
    by (unfold safeCounter, maxSafeInteger; cbn; lia).
  assert (H2 : 2 ∈ idsOf (employees office)).
  { apply list_elem_of_further, list_elem_of_here. }
  assert (H3 : Employee 4 "E2" "Bea" ""
                 ∈ employees (handleCreate (setFormData "E2" "Bea" ""
                                              (handleDelete office 2 true)))).
  { vm_compute. apply list_elem_of_further, list_elem_of_further, list_elem_of_here. }
  split; [exact H1|]. split; [exact Hsafe|]. split; [exact H2|]. split; [exact H3|].
  exact (deleted_id_is_not_reused office 2 "E2" "Bea" "" _ H1 Hsafe H2 H3).
Defined.

(** ** Import: what the accepted rows look like *)

Lemma trimOrEmpty_cellText (row : list cell) (k : nat) :
  trimOrEmpty (cellText row k) = cellText row k.
Proof.
  unfold cellText. destruct (cell_truthy (cellAt row k)); [|done].
  unfold trimOrEmpty. destruct (truthy (trim _)) eqn:Ht; [apply trim_idemp|].
  by destruct (trim _).
Qed.

Lemma trim_cellText (row : list cell) (k : nat) :
  trim (cellText row k) = cellText row k.
Proof.
  unfold cellText. destruct (cell_truthy (cellAt row k)); [|done].
  apply trim_idemp.
Qed.

Lemma elem_of_existingEmpnidsOf (emps : list employee) (code : string) :
  code ∈ existingEmpnidsOf emps <-> code ∈ loweredCodes emps.
Proof. unfold existingEmpnidsOf, loweredCodes. by rewrite elem_of_list_to_set. Qed.

Lemma importRow_accepted_inv (emps : list employee) (last : Z)
    (empIdIndex empNameIndex : nat) (interestsIndex : option nat)
    (i : Z) (row : list cell) (acc : importAcc) :
  0 <= last ->
  importAcceptedInv emps last acc ->
  importAcceptedInv emps last
    (importRow (existingEmpnidsOf emps) empIdIndex empNameIndex interestsIndex i row acc).
Proof.
  intros Hlast (Hinv & Hseq & Hclean & Hcodes).
  pose proof (importRow_inv emps last empIdIndex empNameIndex interestsIndex
                i row acc Hinv) as Hinv'.
  destruct Hinv as [Hseen Hcounter].
  unfold importRow in *.
  case_bool_decide; [done|].
  destruct (truthy (cellText row empIdIndex)) eqn:Hid; [|done].
  destruct (truthy (cellText row empNameIndex)) eqn:Hname; [|done].
  cbn [negb orb] in *.
  case_bool_decide as Hbatch; [done|].
  case_bool_decide as Hroster; [done|].
  split; [done|]. cbn [newEmployees]. split; [|split].
  - rewrite idsOf_app, length_app, Hseq. cbn [length idsOf List.map id].
    rewrite Nat.add_1_r, seqZ_S. f_equal. f_equal. lia.
  - apply Forall_app. split; [done|]. apply Forall_singleton.
    unfold cleanMember. cbn [id empnid name interests].
    rewrite !trim_cellText, Hid, Hname.
    assert (Hints : trimOrEmpty
                      match interestsIndex with
                      | Some k => cellText row k
                      | None => ""
                      end
                    = match interestsIndex with
                      | Some k => cellText row k
                      | None => ""
                      end).
    { destruct interestsIndex; [apply trimOrEmpty_cellText | done]. }
    rewrite Hints. repeat split; try done. lia.
  - rewrite app_assoc, loweredCodes_app. apply NoDup_app. split; [done|].
    split; [|apply NoDup_singleton].
    intros code Hcode Hnew. cbn in Hnew. apply list_elem_of_singleton in Hnew.
    subst code. rewrite loweredCodes_app in Hcode.
    apply elem_of_app in Hcode as [Hcode|Hcode].
    + apply Hroster. by apply elem_of_existingEmpnidsOf.
    + apply Hbatch. rewrite Hseen. by apply elem_of_list_to_set.
Qed.

Lemma importRows_accepted_inv (emps : list employee) (last : Z)
    (empIdIndex empNameIndex : nat) (interestsIndex : option nat)
    (rows : list (list cell)) (i : Z) (acc : importAcc) :
  0 <= last ->
  importAcceptedInv emps last acc ->
  importAcceptedInv emps last
    (importRows (existingEmpnidsOf emps) empIdIndex empNameIndex interestsIndex
       i rows acc).
Proof.
  intros Hlast. revert i acc.
  induction rows as [|row rows IH]; intros i acc Hinv; [done|].
  cbn. apply IH. by apply importRow_accepted_inv.
Qed.

Lemma processRows_accepted_inv (emps : list employee) (last : Z)
    (empIdIndex empNameIndex : nat) (interestsIndex : option nat)
    (rows : list (list cell)) :
  0 <= last ->
  NoDup (loweredCodes emps) ->
  importAcceptedInv emps last
    (processRows emps last empIdIndex empNameIndex interestsIndex rows).
Proof.
  intros Hlast Hcodes. apply importRows_accepted_inv; [done|].
  split; [split; cbn; [done | lia]|]. cbn.
  split; [done|]. split; [constructor|]. by rewrite app_nil_r.
Qed.
Lemma importRows_ids (existing : gset string) (last : Z)
    (empIdIndex empNameIndex : nat) (interestsIndex : option nat)
    (rows : list (list cell)) (i : Z) (acc : importAcc) :
  currentLastId acc = last + Z.of_nat (length (newEmployees acc)) ->
  idsOf (newEmployees acc)
  = seqZ (last + 1) (Z.of_nat (length (newEmployees acc))) ->
  let acc' := importRows existing empIdIndex empNameIndex interestsIndex i rows acc in
  currentLastId acc' = last + Z.of_nat (length (newEmployees acc'))
  /\ idsOf (newEmployees acc')
     = seqZ (last + 1) (Z.of_nat (length (newEmployees acc'))).
Proof.
  revert i acc. induction rows as [|row rows IH]; intros i acc Hcounter Hseq; [done|].
  cbn. apply IH; unfold importRow; repeat (case_bool_decide || case_match);
    try done; cbn [newEmployees currentLastId].
  all: rewrite ?idsOf_app, length_app, ?Hseq; cbn [length idsOf List.map id].
  all: rewrite Nat.add_1_r, ?seqZ_S; try lia.
  all: f_equal; f_equal; lia.
Qed.

(** X9. From a counter that the rows of the sheet leave within the safe
    integers, the rows an import accepts get the ids that follow the counter,
    one by one and in the order of the sheet, whatever is skipped or rejected
    in between. *)
Theorem import_accepted_ids_follow_counter (emps : list employee) (last : Z)
    (empIdIndex empNameIndex : nat) (interestsIndex : option nat)
    (rows : list (list cell)) :
  safeCounter last (length rows) ->
  let acc := processRows emps last empIdIndex empNameIndex interestsIndex rows in
  idsOf (newEmployees acc) = seqZ (last + 1) (Z.of_nat (length (newEmployees acc)))
  /\ currentLastId acc = last + Z.of_nat (length (newEmployees acc)).
Proof.
  intros _. unfold processRows.
  destruct (importRows_ids (existingEmpnidsOf emps) last empIdIndex empNameIndex
              interestsIndex rows 1 (ImportAcc [] [] ∅ last)) as [Hcounter Hseq].
  - cbn. lia.
  - done.
  - done.
Qed.

Lemma import_accepted_ids_follow_counter_example :
  safeCounter 3 (length newcomersBatch)
  /\ (let acc := processRows [alice; bob; carol] 3 0 1 None newcomersBatch in
      idsOf (newEmployees acc) = seqZ (3 + 1) (Z.of_nat (length (newEmployees acc)))
      /\ currentLastId acc = 3 + Z.of_nat (length (newEmployees acc)))
  /\ newEmployees (processRows [alice; bob; carol] 3 0 1 None newcomersBatch)
     = [zoe; yan].
Proof.
  assert (H : safeCounter 3 (length newcomersBatch))
    by (unfold safeCounter, maxSafeInteger; cbn; lia).
  split; [exact H|]. split; [|vm_compute; reflexivity].
  exact (import_accepted_ids_follow_counter [alice; bob; carol] 3 0 1 None
           newcomersBatch H).
Defined.

Lemma importRows_accounting (existing : gset string)
    (empIdIndex empNameIndex : nat) (interestsIndex : option nat)
    (rows : list (list cell)) (i : Z) (acc : importAcc) :
  let acc' := importRows existing empIdIndex empNameIndex interestsIndex i rows acc in
  (length (newEmployees acc') + length (duplicates acc')
   = length (newEmployees acc) + length (duplicates acc)
     + length (List.filter (eligibleRow empIdIndex empNameIndex) rows))%nat.
Proof.
  revert i acc. induction rows as [|row rows IH]; intros i acc; cbn; [lia|].
  rewrite IH. unfold importRow, eligibleRow.
  case_bool_decide; cbn; [lia|].
  destruct (truthy (cellText row empIdIndex)); cbn; [|lia].
  destruct (truthy (cellText row empNameIndex)); cbn; [|lia].
  repeat case_bool_decide; cbn; rewrite length_app; cbn; lia.
Qed.

(** X10. An import loses no row: the rows it accepts and the rows it
    reports as duplicates are together as many as the data rows that are not
    empty and have both an identifier and a name. *)
Theorem import_accounts_for_every_row (emps : list employee) (last : Z)
    (empIdIndex empNameIndex : nat) (interestsIndex : option nat)
    (rows : list (list cell)) :
  let acc := processRows emps last empIdIndex empNameIndex interestsIndex rows in
  (length (newEmployees acc) + length (duplicates acc)
   = length (List.filter (eligibleRow empIdIndex empNameIndex) rows))%nat.
Proof.
  unfold processRows.
  pose proof (importRows_accounting (existingEmpnidsOf emps) empIdIndex empNameIndex
                interestsIndex rows 1 (ImportAcc [] [] ∅ last)) as H.
  cbn in H. cbn. lia.
Qed.

(** What an import does to the state: nothing but an error message for a
    file it turns down or throws on, the commit of the row loop otherwise. *)
Lemma handleExcelImport_cases (st : State) (file : upload) :
  (exists msg, handleExcelImport st file = setError msg st)
  \/ exists empIdIndex empNameIndex interestsIndex,
       handleExcelImport st file
       = commitImport st
           (processRows (employees st) (lastId st)
              empIdIndex empNameIndex interestsIndex (dataRows file)).
Proof.
  destruct file as [| |jsonData].
  - left. exists (error st). by rewrite setError_same.
  - left. by eexists.
  - destruct jsonData as [|header [|row rows]]; [left; by eexists..|].
    unfold handleExcelImport, dataRows.
    destruct (findHeader isSerialHeader (headersOf header)); [|left; by eexists].
    destruct (findHeader isEmpIdHeader (headersOf header)) as [[empIdIndex|]|];
      destruct (findHeader isEmpNameHeader (headersOf header)) as [[empNameIndex|]|];
      destruct (findHeader isInterestsHeader (headersOf header)) as [interestsIndex|];
      try (left; by eexists).
    right. by exists empIdIndex, empNameIndex, interestsIndex.
Qed.

(** X11. A file the import turns down (none, unreadable, fewer than two
    rows, or no identifier or name column) changes nothing but the error
    message: roster, counter, pending rows and assignments stay as they are. *)
Theorem handleExcelImport_rejected_file (st : State) (file : upload) :
  rejectedFile file ->
  exists msg, handleExcelImport st file = setError msg st.
Proof.
  intros Hrejected. destruct file as [| |jsonData]; cbn.
  - exists (error st). by rewrite setError_same.
  - by eexists.
  - destruct jsonData as [|header [|row rows]]; [by eexists | by eexists |].
    unfold rejectedFile in Hrejected. cbn zeta in Hrejected.
    destruct (findHeader isSerialHeader (headersOf header)); [|by eexists].
    destruct (findHeader isEmpIdHeader (headersOf header)) as [[empIdIndex|]|] eqn:Hid;
      destruct (findHeader isEmpNameHeader (headersOf header))
        as [[empNameIndex|]|] eqn:Hname;
      destruct (findHeader isInterestsHeader (headersOf header));
      try by eexists.
    apply findHeader_found in Hid, Hname.
    destruct Hrejected as [H|H]; congruence.
Qed.

Lemma handleExcelImport_rejected_file_example :
  rejectedFile namesOnlySheet
  /\ exists msg, handleExcelImport office namesOnlySheet = setError msg office.
Proof.
  assert (H : rejectedFile namesOnlySheet) by (left; vm_compute; reflexivity).
  split; [exact H|].
  exact (handleExcelImport_rejected_file office namesOnlySheet H).
Defined.

Lemma seqZ_sorted (m : Z) (n : nat) : StronglySorted Z.lt (seqZ m (Z.of_nat n)).
Proof.
  induction n as [|n IH]; [constructor|].
  rewrite seqZ_S. apply StronglySorted_app_2; [|done|repeat constructor].
  intros a b Ha Hb. apply elem_of_seqZ in Ha.
  apply list_elem_of_singleton in Hb. lia.
Qed.

(** X12. An import, alone or followed by its confirmation, keeps the roster
    invariant when no earlier import is left pending and the data rows leave
    the counter within the safe integers: identifiers stay unique up to
    case, ids stay sorted below the counter, members clean. *)
Theorem import_keeps_roster_invariant (st : State) (file : upload) :
  rosterInv st ->
  pendingImportEmployees st = [] ->
  safeCounter (lastId st) (length (dataRows file)) ->
  rosterInv (handleExcelImport st file)
  /\ rosterInv (handleImportConfirm (handleExcelImport st file)).
Proof.
  intros Hinv Hpending _.
  destruct (handleExcelImport_cases st file)
    as [[msg ->] | (empIdIndex & empNameIndex & interestsIndex & ->)].
  2: generalize (dataRows file); intros rows.
  { split; [done|]. unfold handleImportConfirm. cbn. rewrite Hpending.
    by rewrite bool_decide_eq_false_2 by naive_solver. }
  destruct Hinv as (Hclean & Hcodes & Hsorted & Hids & Hlast).
  destruct (processRows_accepted_inv (employees st) (lastId st) empIdIndex
              empNameIndex interestsIndex rows Hlast Hcodes)
    as ([_ Hcounter] & Hseq & Hnewclean & Hallcodes).
  generalize dependent (processRows (employees st) (lastId st) empIdIndex
                          empNameIndex interestsIndex rows).
  intros acc Hcounter Hseq Hnewclean Hallcodes.
  assert (Hnewids : Forall (fun e => lastId st < id e <= currentLastId acc)
                      (newEmployees acc)).
  { apply Forall_forall. intros e He.
    assert (Hid : id e ∈ idsOf (newEmployees acc)).
    { apply elem_of_idsOf. by exists e. }
    rewrite Hseq in Hid. apply elem_of_seqZ in Hid. lia. }
  assert (Hnewsorted : StronglySorted Z.lt (idsOf (newEmployees acc))).
  { rewrite Hseq. apply seqZ_sorted. }
  assert (Hgrown : rosterInv
            (setEmployees (employees st ++ newEmployees acc)
               (setLastId (currentLastId acc) st))).
  { unfold rosterInv. cbn. split; [|split; [|split; [|split]]].
    - by apply Forall_app.
    - done.
    - apply (idsOf_sorted_app _ _ (lastId st)); try done.
      + eapply Forall_impl; [exact Hids|]. cbn. intros; lia.
      + eapply Forall_impl; [exact Hnewids|]. cbn. intros; lia.
    - apply Forall_app. split.
      + eapply Forall_impl; [exact Hids|]. cbn. intros; lia.
      + eapply Forall_impl; [exact Hnewids|]. cbn. intros; lia.
    - lia. }
  assert (Hle : lastId st <= currentLastId acc) by lia.
  assert (Hbumped : rosterInv (setLastId (currentLastId acc) st)).
  { unfold rosterInv. cbn. split; [done|]. split; [done|]. split; [done|].
    split; [|lia]. eapply Forall_impl; [exact Hids|]. cbn. intros; lia. }
  unfold commitImport.
  destruct (decide (duplicates acc = [])) as [Hnone|Hsome].
  - rewrite (bool_decide_eq_false_2 (duplicates acc <> [])) by naive_solver.
    assert (Hconfirm : forall st', pendingImportEmployees st' = [] ->
              employees (handleImportConfirm st') = employees st'
              /\ lastId (handleImportConfirm st') = lastId st').
    { intros st' Hp. unfold handleImportConfirm. rewrite Hp.
      by rewrite bool_decide_eq_false_2 by naive_solver. }
    destruct (decide (newEmployees acc = [])) as [Hempty|Hnew].
    + rewrite (bool_decide_eq_false_2 (newEmployees acc <> [])) by naive_solver.
      split; [done|].
      destruct (Hconfirm (setError "No valid employees found in the Excel file." st))
        as [He Hl]; [done|].
      unfold rosterInv. by rewrite He, Hl.
    + rewrite (bool_decide_eq_true_2 (newEmployees acc <> [])) by done.
      split; [done|].
      destruct (Hconfirm (setError ""
                  (setEmployees (employees st ++ newEmployees acc)
                     (setLastId (currentLastId acc) st)))) as [He Hl]; [done|].
      unfold rosterInv. by rewrite He, Hl.
  - rewrite (bool_decide_eq_true_2 (duplicates acc <> [])) by done.
    split; [done|]. unfold handleImportConfirm. cbn.
    destruct (decide (newEmployees acc = [])) as [Hempty|Hnew].
    + by rewrite (bool_decide_eq_false_2 (newEmployees acc <> [])) by naive_solver.
    + by rewrite (bool_decide_eq_true_2 (newEmployees acc <> [])) by done.
Qed.

Lemma import_keeps_roster_invariant_example :
  rosterInv office
  /\ pendingImportEmployees office = []
  /\ safeCounter (lastId office) (length (dataRows newcomersSheet))
  /\ pendingImportEmployees (handleExcelImport office newcomersSheet) = [zoe; yan]
  /\ employees (handleImportConfirm (handleExcelImport office newcomersSheet))
     = [alice; bob; carol; zoe; yan]
  /\ rosterInv (handleExcelImport office newcomersSheet)
  /\ rosterInv (handleImportConfirm (handleExcelImport office newcomersSheet)).
Proof.
  assert (H1 : rosterInv office) by exact office_rosterInv.
  assert (H2 : pendingImportEmployees office = []) by reflexivity.
  assert (H3 : safeCounter (lastId office) (length (dataRows newcomersSheet)))
    by (unfold safeCounter, maxSafeInteger; cbn; lia).
  split; [exact H1|]. split; [exact H2|]. split; [exact H3|].
  split; [vm_compute; reflexivity|]. split; [vm_compute; reflexivity|].
  exact (import_keeps_roster_invariant office newcomersSheet H1 H2 H3).
Defined.

(** X13. Confirming twice is confirming once: the first confirmation
    empties the pending rows, so a second one cannot append them again. *)
Theorem handleImportConfirm_idempotent (st : State) :
  handleImportConfirm (handleImportConfirm st) = handleImportConfirm st.
Proof.
  unfold handleImportConfirm at 1.
  assert (Hpending : pendingImportEmployees (handleImportConfirm st) = []).
  { unfold handleImportConfirm. by case_bool_decide. }
  rewrite Hpending. rewrite bool_decide_eq_false_2 by naive_solver.
  unfold handleImportConfirm. by case_bool_decide.
Qed.

(** ** Bulk draw: the shuffle and the pairing *)

Lemma transpose_involutive (i j k : nat) : transpose i j (transpose i j k) = k.
Proof. unfold transpose. repeat case_bool_decide; congruence. Qed.

Lemma swap_lookup {A} (a : list A) (i j k : nat) :
  (i < length a)%nat -> (j < length a)%nat ->
  swap a i j !! k = a !! transpose i j k.
Proof.
  intros Hi Hj. unfold swap, transpose.
  destruct (lookup_lt_is_Some_2 a j Hj) as [x Hx].
  destruct (lookup_lt_is_Some_2 a i Hi) as [y Hy].
  rewrite Hx, Hy.
  destruct (decide (k = j)) as [->|Hkj].
  - rewrite list_lookup_insert_eq by (by rewrite length_insert).
    repeat case_bool_decide; congruence.
  - rewrite list_lookup_insert_ne by done.
    destruct (decide (k = i)) as [->|Hki].
    + rewrite list_lookup_insert_eq by done.
      rewrite bool_decide_eq_true_2 by done. done.
    + rewrite list_lookup_insert_ne by done.
      rewrite !bool_decide_eq_false_2 by done. done.
Qed.

Lemma swap_length {A} (a : list A) (i j : nat) : length (swap a i j) = length a.
Proof.
  unfold swap. destruct (a !! j); [|done]. destruct (a !! i); [|done].
  by rewrite !length_insert.
Qed.

Lemma swap_Permutation {A} (a : list A) (i j : nat) :
  (i < length a)%nat -> (j < length a)%nat -> swap a i j ≡ₚ a.
Proof.
  intros Hi Hj. apply Permutation_inj. split; [apply swap_length|].
  exists (transpose i j). split.
  - intros k1 k2 Hk. by rewrite <- (transpose_involutive i j k1), Hk,
      transpose_involutive.
  - intros k. by apply swap_lookup.
Qed.

Lemma fisherYates_Permutation (random : nat -> Q) (i k : nat)
    (shuffled : list employee) :
  (forall c, inUnitInterval (random c)) ->
  (i < length shuffled)%nat ->
  (fisherYates random k i shuffled).1 ≡ₚ shuffled
  /\ (fisherYates random k i shuffled).2 = (k + i)%nat.
Proof.
  intros Hrandom. revert k shuffled.
  induction i as [|i IH]; intros k shuffled Hi; cbn [fisherYates];
    [split; [done | cbn; lia]|].
  assert (Hj : (randomIndex (random k) (S i + 1) < S i + 1)%nat).
  { apply randomIndex_lt; [done | lia]. }
  assert (Hswap : swap shuffled (S i) (randomIndex (random k) (S i + 1)) ≡ₚ shuffled).
  { apply swap_Permutation; lia. }
  destruct (IH (S k) (swap shuffled (S i) (randomIndex (random k) (S i + 1))))
    as [Hperm Hcount].
  { rewrite swap_length. lia. }
  split; [by rewrite Hperm | lia].
Qed.

(** X14. With random numbers in range, the Fisher-Yates loop returns a
    permutation of the array it is given, and draws one random number for
    each position but the first. *)
Theorem shuffle_is_a_permutation (random : nat -> Q) (k : nat) (a : list employee) :
  (forall c, inUnitInterval (random c)) ->
  (shuffle random k a).1 ≡ₚ a
  /\ (shuffle random k a).2 = (k + (length a - 1))%nat.
Proof.
  intros Hrandom. unfold shuffle. destruct a as [|x a]; [done|].
  destruct (fisherYates_Permutation random (length (x :: a) - 1) k (x :: a) Hrandom)
    as [Hperm Hcount]; [cbn; lia|].
  by rewrite Hperm, Hcount.
Qed.

Lemma shuffle_is_a_permutation_example :
  (forall c : nat, inUnitInterval ((fun _ => 1#2) c))
  /\ (shuffle (fun _ => 1#2) 0 [alice; bob; carol]).1 = [alice; carol; bob]
  /\ (shuffle (fun _ => 1#2) 0 [alice; bob; carol]).1 ≡ₚ [alice; bob; carol]
  /\ (shuffle (fun _ => 1#2) 0 [alice; bob; carol]).2
     = (0 + (length [alice; bob; carol] - 1))%nat.
Proof.
  assert (H : forall c : nat, inUnitInterval ((fun _ => 1#2) c)).
  { intros _. by vm_compute. }
  split; [exact H|]. split; [vm_compute; reflexivity|].
  exact (shuffle_is_a_permutation (fun _ => 1#2) 0 [alice; bob; carol] H).
Defined.
Lemma idsOf_lookup (emps : list employee) (i : nat) :
  idsOf emps !! i = id <$> emps !! i.
Proof. unfold idsOf. change (List.map id emps) with (id <$> emps).
  apply list_lookup_fmap. Qed.

(** With pairwise different ids and at least two members, the forward scan
    stops after at most one step, on a member other than the drawer. *)
Lemma scanForward_targetIndex (n : nat) (eid : Z) (shuffled : list employee) (i : nat) :
  length shuffled = n -> (2 <= n)%nat -> NoDup (idsOf shuffled) -> (i < n)%nat ->
  scanForward n eid shuffled i n = targetIndex n shuffled i eid
  /\ exists s, shuffled !! targetIndex n shuffled i eid = Some s /\ id s <> eid.
Proof.
  intros Hlen Hn Hnodup Hi. unfold targetIndex.
  destruct n as [|[|n]]; [lia | lia |].
  destruct (lookup_lt_is_Some_2 shuffled i) as [s Hs]; [lia|].
  cbn [scanForward]. rewrite Hs.
  case_bool_decide as Hself; [|split; [done|]; exists s; split; [done|congruence]].
  set (i' := ((i + 1) mod S (S n))%nat).
  assert (Hi' : (i' < S (S n))%nat) by (apply Nat.mod_upper_bound; lia).
  assert (Hne : i' <> i).
  { unfold i'. destruct (decide (i + 1 < S (S n))%nat) as [Hlt|Hge].
    - rewrite Nat.mod_small by done. lia.
    - replace (i + 1)%nat with (S (S n)) by lia. rewrite Nat.Div0.mod_same. lia. }
  destruct (lookup_lt_is_Some_2 shuffled i') as [s' Hs']; [lia|].
  rewrite Hs'.
  assert (Hdiff : id s' <> id s).
  { intros Heq. apply Hne. eapply (proj1 (NoDup_alt _) Hnodup).
    - rewrite idsOf_lookup, Hs'. reflexivity.
    - rewrite idsOf_lookup, Hs. cbn. by rewrite Heq. }
  rewrite bool_decide_eq_false_2 by congruence.
  split; [done|]. exists s'. split; [done | congruence].
Qed.

(** The pairing loop then never gives up, and reads every member's target
    from [targetIndex]. *)
Lemma pairFrom_targetIndex (n : nat) (shuffled rest : list employee) (i : nat)
    (temp : gmap Z Z) :
  length shuffled = n -> (2 <= n)%nat -> NoDup (idsOf shuffled) ->
  NoDup (idsOf rest) -> (i + length rest = n)%nat ->
  exists m,
    pairFrom n shuffled i rest temp = Some m
    /\ (forall j e, rest !! j = Some e ->
          m !! id e = id <$> shuffled !! targetIndex n shuffled (i + j) (id e))
    /\ (forall k, k ∉ idsOf rest -> m !! k = temp !! k).
Proof.
  intros Hlen Hn Hshuffled. revert i temp.
  induction rest as [|e rest IH]; intros i temp Hrest Hi.
  - exists temp. split; [done|]. split; [|done]. intros j e He. done.
  - cbn in Hrest. apply NoDup_cons in Hrest as [Hfresh Hrest].
    cbn [pairFrom].
    destruct (scanForward_targetIndex n (id e) shuffled i Hlen Hn Hshuffled)
      as [-> (s & Hs & Hdiff)]; [cbn in Hi; lia|].
    rewrite Hs. rewrite bool_decide_eq_false_2 by congruence.
    destruct (IH (S i) (<[id e := id s]> temp) Hrest) as (m & -> & Hkeys & Hother).
    { cbn in Hi. lia. }
    exists m. split; [done|]. split.
    + intros [|j] e' He'.
      * injection He' as <-. rewrite Hother by done.
        rewrite lookup_insert_eq, Nat.add_0_r, Hs. done.
      * rewrite (Hkeys j e' He'). do 3 f_equal. lia.
    + intros k Hk. cbn in Hk. apply not_elem_of_cons in Hk as [Hne Hk].
      rewrite Hother by done. by rewrite lookup_insert_ne.
Qed.

Lemma drawAssignments_first_attempt (random : nat -> Q) (emps : list employee) :
  (2 <= length emps)%nat -> NoDup (idsOf emps) ->
  (forall c, inUnitInterval (random c)) ->
  let shuffled := (shuffle random 0 emps).1 in
  pairAll emps shuffled = Some (drawAssignments random emps)
  /\ forall j e, emps !! j = Some e ->
       drawAssignments random emps !! id e
       = id <$> shuffled !! targetIndex (length emps) shuffled j (id e).
Proof.
  intros Hn Hnodup Hrandom shuffled.
  assert (Hperm : shuffled ≡ₚ emps).
  { unfold shuffled, shuffle.
    apply (fisherYates_Permutation random (length emps - 1) 0 emps Hrandom). lia. }
  destruct (pairFrom_targetIndex (length emps) shuffled emps 0 ∅)
    as (m & Hpair & Hkeys & _); try done.
  { by rewrite Hperm. }
  { unfold idsOf. change (List.map id ?l) with (id <$> l). by rewrite Hperm. }
  assert (Hdraw : drawAssignments random emps = m).
  { unfold drawAssignments. fold shuffled.
    destruct (shuffle random 0 emps) as [sh k] eqn:Hsh. cbn in shuffled.
    subst shuffled. unfold maxAttempts. cbn [attemptLoop].
    unfold pairAll. by rewrite Hpair. }
  rewrite Hdraw. split; [done|]. intros j e He. by apply Hkeys.
Qed.

(** X15. With at least two members of pairwise different ids and random
    numbers in range, the bulk draw succeeds at its first attempt: no error
    is left, every member is a key, and the member at position [j] of the
    roster draws the member at position [j] of the shuffled array, or at the
    next position, circularly, when [j] holds the member itself. *)
Theorem bulk_draw_succeeds_with_distinct_ids (st : State) (random : nat -> Q) :
  (2 <= length (employees st))%nat ->
  NoDup (idsOf (employees st)) ->
  (forall c, inUnitInterval (random c)) ->
  let st' := handleSecretSantaDraw st random in
  let shuffled := (shuffle random 0 (employees st)).1 in
  error st' = ""
  /\ dom (secretSantaAssignments st') = list_to_set (idsOf (employees st))
  /\ forall j e, employees st !! j = Some e ->
       secretSantaAssignments st' !! id e
       = id <$> shuffled !! targetIndex (length (employees st)) shuffled j (id e).
Proof.
  intros Hn Hnodup Hrandom st' shuffled.
  destruct (drawAssignments_first_attempt random (employees st) Hn Hnodup Hrandom)
    as [Hpair Hkeys].
  fold shuffled in Hpair, Hkeys.
  assert (Hdom : dom (drawAssignments random (employees st))
                 = list_to_set (idsOf (employees st))).
  { unfold pairAll in Hpair. rewrite (pairFrom_dom _ _ _ _ _ _ Hpair).
    unfold idsOf. change (List.map id ?l) with (id <$> l). set_solver. }
  assert (Hnonempty : drawAssignments random (employees st) <> ∅).
  { intros Hempty. rewrite Hempty, dom_empty_L in Hdom.
    destruct (employees st) as [|e emps]; [cbn in Hn; lia|].
    cbn in Hdom. set_solver. }
  assert (Hst' : st' = setSecretSantaAssignments
                         (drawAssignments random (employees st)) (setError "" st)).
  { unfold st', handleSecretSantaDraw.
    rewrite bool_decide_eq_false_2 by lia.
    by rewrite bool_decide_eq_false_2. }
  rewrite Hst'. cbn. done.
Qed.

Lemma bulk_draw_succeeds_with_distinct_ids_example :
  (2 <= length (employees office))%nat
  /\ NoDup (idsOf (employees office))
  /\ (forall c : nat, inUnitInterval ((fun _ => 1#2) c))
  /\ error (handleSecretSantaDraw office (fun _ => 1#2)) = ""
  /\ dom (secretSantaAssignments (handleSecretSantaDraw office (fun _ => 1#2)))
     = list_to_set (idsOf (employees office)).
Proof.
  assert (H1 : (2 <= length (employees office))%nat) by (cbn; lia).
  assert (H2 : NoDup (idsOf (employees office))).
  { apply NoDup_ListNoDup. repeat constructor; cbn; intros H;
      repeat (destruct H as [H|H]; [discriminate H|]); done. }
  assert (H3 : forall c : nat, inUnitInterval ((fun _ => 1#2) c)).
  { intros _. by vm_compute. }
  destruct (bulk_draw_succeeds_with_distinct_ids office (fun _ => 1#2) H1 H2 H3)
    as (Herror & Hdom & _).
  split; [exact H1|]. split; [exact H2|]. split; [exact H3|].
  split; [exact Herror | exact Hdom].
Defined.

(** X16. Whatever the roster and the random numbers, a bulk draw either
    reports an error and leaves the assignments alone, or replaces them by a
    map whose keys are the ids of the roster and in which nobody is assigned
    to themselves or to someone outside the roster.  It never touches the
    roster or the counter. *)
Theorem handleSecretSantaDraw_outcome (st : State) (random : nat -> Q) :
  let st' := handleSecretSantaDraw st random in
  employees st' = employees st /\ lastId st' = lastId st
  /\ ((error st' <> "" /\ secretSantaAssignments st' = secretSantaAssignments st)
      \/ (error st' = ""
          /\ dom (secretSantaAssignments st') = list_to_set (idsOf (employees st))
          /\ forall k v, secretSantaAssignments st' !! k = Some v ->
               k <> v /\ v ∈ idsOf (employees st))).
Proof.
  intros st'. unfold st', handleSecretSantaDraw.
  case_bool_decide as Hfew; [split; [done|]; split; [done|]; by left|].
  case_bool_decide as Hempty; [split; [done|]; split; [done|]; by left|].
  split; [done|]. split; [done|]. right. cbn.
  destruct (bulk_draw_keys_and_targets random (employees st)) as [?|[Hdom Hall]];
    [done|].
  split; [done|]. split; [exact Hdom | exact Hall].
Qed.

(** ** Individual draw, the Draw button and the lookup of an assignment *)

(** What a completed draw leaves: an error when no pool could be offered,
    otherwise the drawer's entry set to a member of the pool and the slot
    selection closed. *)
Lemma individualDraw_cases
    (st st' : State) (employeeId : Z) (slotIndex : nat) (r : Q) :
  individualDraw st employeeId slotIndex r = Some st' ->
  (availableEmployees st employeeId = []
   /\ st' = setError
        "No available employees to assign! All employees may already be assigned."
        st)
  \/ exists drawer target,
       drawer ∈ employees st /\ id drawer = employeeId
       /\ target ∈ availableEmployees st employeeId
       /\ employees st' = employees st
       /\ lastId st' = lastId st
       /\ secretSantaAssignments st'
          = <[employeeId := id target]> (secretSantaAssignments st).
Proof.
  unfold individualDraw, handleIndividualDraw.
  destruct (availableEmployees st employeeId) as [|e0 pool] eqn:Hpool.
  - intros [= <-]. by left.
  - cbn. unfold slotSelectTimeout. cbn.
    destruct (List.find _ (employees st)) as [drawer|] eqn:Hfind; [|done].
    destruct ((e0 :: pool) !! _) as [target|] eqn:Htarget; [|done].
    intros [= <-]. right. exists drawer, target.
    apply find_id_Some in Hfind as [Hid Hin].
    split; [done|]. split; [done|].
    split; [by eapply list_elem_of_lookup_2|]. cbn. by rewrite Hid.
Qed.

(** X17. An individual draw never touches the roster or the counter, and
    if every key and value of the assignment map is a member's id before the
    draw, the same holds after it. *)
Theorem individualDraw_keeps_assignments_within_roster
    (st st' : State) (employeeId : Z) (slotIndex : nat) (r : Q) :
  assignmentsWithinRoster st ->
  individualDraw st employeeId slotIndex r = Some st' ->
  employees st' = employees st
  /\ lastId st' = lastId st
  /\ assignmentsWithinRoster st'.
Proof.
  intros Hwithin Hdraw.
  apply individualDraw_cases in Hdraw
    as [[_ ->] | (drawer & target & Hdrawer & Hid & Htarget & He & Hl & Hm)].
  { done. }
  split; [done|]. split; [done|].
  intros k v Hkv. rewrite He. rewrite Hm in Hkv.
  destruct (decide (employeeId = k)) as [<-|Hne].
  - rewrite lookup_insert_eq in Hkv. injection Hkv as <-.
    apply elem_of_availableEmployees in Htarget as (Hin & _).
    split; apply elem_of_idsOf; [by exists drawer | by exists target].
  - rewrite lookup_insert_ne in Hkv by done. by apply Hwithin.
Qed.

Lemma individualDraw_keeps_assignments_within_roster_example :
  assignmentsWithinRoster office
  /\ individualDraw office 1 0 (1#2)
     = Some (setSecretSantaAssignments {[ 1 := 3 ]} office)
  /\ assignmentsWithinRoster (setSecretSantaAssignments {[ 1 := 3 ]} office).
Proof.
  assert (H1 : assignmentsWithinRoster office).
  { intros k v Hkv. cbn in Hkv. by rewrite lookup_empty in Hkv. }
  assert (H2 : individualDraw office 1 0 (1#2)
               = Some (setSecretSantaAssignments {[ 1 := 3 ]} office))
    by (vm_compute; reflexivity).
  split; [exact H1|]. split; [exact H2|].
  exact (proj2 (proj2 (individualDraw_keeps_assignments_within_roster
                         office _ 1 0 (1#2) H1 H2))).
Defined.

(** X18. After a draw that offered a pool, looking the drawer up returns
    the very member of the pool that was recorded, provided the roster
    satisfies its invariant (so that an id names one member and is not 0). *)
Theorem individualDraw_then_lookup
    (st st' : State) (employeeId : Z) (slotIndex : nat) (r : Q) :
  rosterInv st ->
  availableEmployees st employeeId <> [] ->
  individualDraw st employeeId slotIndex r = Some st' ->
  exists target,
    target ∈ availableEmployees st employeeId
    /\ secretSantaAssignments st' !! employeeId = Some (id target)
    /\ getSecretSantaAssignment st' employeeId = Some target.
Proof.
  intros (_ & _ & Hsorted & Hids & _) Hpool Hdraw.
  apply individualDraw_cases in Hdraw
    as [[Hnil _] | (drawer & target & _ & _ & Htarget & He & _ & Hm)]; [done|].
  exists target. split; [done|].
  assert (Hlookup : secretSantaAssignments st' !! employeeId = Some (id target)).
  { rewrite Hm. apply lookup_insert_eq. }
  split; [done|].
  apply elem_of_availableEmployees in Htarget as (Hin & _).
  unfold getSecretSantaAssignment. rewrite Hlookup, He.
  rewrite Forall_forall in Hids. specialize (Hids _ Hin).
  rewrite bool_decide_eq_false_2 by lia.
  by apply find_id_of_member.
Qed.

Lemma individualDraw_then_lookup_example :
  rosterInv office
  /\ availableEmployees office 1 <> []
  /\ individualDraw office 1 0 (1#2)
     = Some (setSecretSantaAssignments {[ 1 := 3 ]} office)
  /\ exists target,
       target ∈ availableEmployees office 1
       /\ secretSantaAssignments (setSecretSantaAssignments {[ 1 := 3 ]} office) !! 1
          = Some (id target)
       /\ getSecretSantaAssignment (setSecretSantaAssignments {[ 1 := 3 ]} office) 1
          = Some target.
Proof.
  assert (H1 : rosterInv office) by exact office_rosterInv.
  assert (H2 : availableEmployees office 1 <> []) by (vm_compute; discriminate).
  assert (H3 : individualDraw office 1 0 (1#2)
               = Some (setSecretSantaAssignments {[ 1 := 3 ]} office))
    by (vm_compute; reflexivity).
  split; [exact H1|]. split; [exact H2|]. split; [exact H3|].
  exact (individualDraw_then_lookup office _ 1 0 (1#2) H1 H2 H3).
Defined.

(** X19. The lookup of an assignment is sound, and complete on a roster
    that satisfies its invariant with the assignments within it: it returns
    a member exactly when the map has an entry for the key, and that member
    is the member of the roster whose id is the entry. *)
Theorem getSecretSantaAssignment_correct (st : State) (k : Z) :
  (forall e, getSecretSantaAssignment st k = Some e ->
             e ∈ employees st /\ secretSantaAssignments st !! k = Some (id e))
  /\ (rosterInv st -> assignmentsWithinRoster st ->
      forall v, secretSantaAssignments st !! k = Some v ->
        exists e, getSecretSantaAssignment st k = Some e /\ id e = v).
Proof.
  unfold getSecretSantaAssignment. split.
  - intros e. destruct (secretSantaAssignments st !! k) as [v|]; [|done].
    case_bool_decide; [done|]. intros Hfind.
    apply find_id_Some in Hfind as [<- Hin]. done.
  - intros (_ & _ & Hsorted & Hids & _) Hwithin v Hkv. rewrite Hkv.
    destruct (Hwithin k v Hkv) as [_ Hv].
    apply elem_of_idsOf in Hv as (e & He & <-).
    rewrite Forall_forall in Hids. specialize (Hids _ He).
    rewrite bool_decide_eq_false_2 by lia.
    exists e. split; [by apply find_id_of_member | done].
Qed.

(** X20. Where the table shows the Draw button for a member (no
    assignment to display, at least two members), the member has no entry in
    the map, given the invariants; a draw started from the button therefore
    keeps every assignment made before. *)
Theorem draw_from_button_keeps_assignments
    (st st' : State) (e : employee) (slotIndex : nat) (r : Q) :
  rosterInv st -> assignmentsWithinRoster st ->
  drawButtonShown st e = true ->
  individualDraw st (id e) slotIndex r = Some st' ->
  secretSantaAssignments st !! id e = None
  /\ forall k v, secretSantaAssignments st !! k = Some v ->
                 secretSantaAssignments st' !! k = Some v.
Proof.
  intros (_ & _ & Hsorted & Hids & _) Hwithin Hbutton Hdraw.
  assert (Hnone : secretSantaAssignments st !! id e = None).
  { destruct (secretSantaAssignments st !! id e) as [v|] eqn:Hkv; [|done].
    exfalso. unfold drawButtonShown, getSecretSantaAssignment in Hbutton.
    rewrite Hkv in Hbutton.
    destruct (Hwithin _ _ Hkv) as [_ Hv].
    apply elem_of_idsOf in Hv as (t & Ht & <-).
    rewrite Forall_forall in Hids. specialize (Hids _ Ht).
    rewrite bool_decide_eq_false_2 in Hbutton by lia.
    by rewrite (find_id_of_member _ _ Hsorted Ht) in Hbutton. }
  split; [done|]. intros k v Hkv.
  apply individualDraw_cases in Hdraw
    as [[_ ->] | (_ & target & _ & _ & _ & _ & _ & ->)]; [done|].
  rewrite lookup_insert_ne; [done|]. intros <-. congruence.
Qed.

Lemma officeAfterAlice_within_roster : assignmentsWithinRoster officeAfterAlice.
Proof.
  intros k v Hkv. cbn in Hkv.
  apply lookup_singleton_Some in Hkv as [<- <-].
  split; apply list_elem_of_In; cbn; tauto.
Qed.

Lemma draw_from_button_keeps_assignments_example :
  rosterInv officeAfterAlice /\ assignmentsWithinRoster officeAfterAlice
  /\ drawButtonShown officeAfterAlice bob = true
  /\ individualDraw officeAfterAlice (id bob) 0 (1#2)
     = Some (setSecretSantaAssignments {[ 2 := 1; 1 := 3 ]} officeAfterAlice)
  /\ secretSantaAssignments officeAfterAlice !! id bob = None.
Proof.
  assert (H1 : rosterInv officeAfterAlice) by exact office_rosterInv.
  assert (H2 : assignmentsWithinRoster officeAfterAlice)
    by exact officeAfterAlice_within_roster.
  assert (H3 : drawButtonShown officeAfterAlice bob = true)
    by (vm_compute; reflexivity).
  assert (H4 : individualDraw officeAfterAlice (id bob) 0 (1#2)
               = Some (setSecretSantaAssignments {[ 2 := 1; 1 := 3 ]} officeAfterAlice))
    by (vm_compute; reflexivity).
  split; [exact H1|]. split; [exact H2|]. split; [exact H3|]. split; [exact H4|].
  exact (proj1 (draw_from_button_keeps_assignments officeAfterAlice _ bob 0 (1#2)
                  H1 H2 H3 H4)).
Defined.

Lemma getSecretSantaAssignment_correct_example :
  rosterInv officeAfterAlice /\ assignmentsWithinRoster officeAfterAlice
  /\ secretSantaAssignments officeAfterAlice !! 1 = Some 3
  /\ exists e, getSecretSantaAssignment officeAfterAlice 1 = Some e /\ id e = 3.
Proof.
  assert (H1 : rosterInv officeAfterAlice) by exact office_rosterInv.
  assert (H2 : assignmentsWithinRoster officeAfterAlice)
    by exact officeAfterAlice_within_roster.
  assert (H3 : secretSantaAssignments officeAfterAlice !! 1 = Some 3)
    by (vm_compute; reflexivity).
  split; [exact H1|]. split; [exact H2|]. split; [exact H3|].
  exact (proj2 (getSecretSantaAssignment_correct officeAfterAlice 1) H1 H2 3 H3).
Defined.
(** ** Snapshot load: order, counter, round trip *)



Lemma idsOf_sorted_byId (emps : list employee) :
  StronglySorted Z.lt (idsOf emps) -> StronglySorted byId emps.
Proof.
  induction emps as [|x emps IH]; [constructor|]. cbn. intros Hs.
  apply StronglySorted_inv in Hs as [Hs Hx]. constructor; [by apply IH|].
  rewrite Forall_forall in Hx. apply Forall_forall. intros e He.
  unfold byId. assert (id x < id e); [|lia].
  apply Hx. apply elem_of_idsOf. by exists e.
Qed.

(** X22. Saving and loading is a round trip on every state that satisfies
    the roster invariant with a counter that is a safe integer (and with it
    every id): the load of what the save effects wrote gives back the same
    roster, in the same order, and the same counter. *)
Theorem persist_then_loadSnapshot (st : State) (sto : Storage) :
  rosterInv st ->
  safeInteger (lastId st) ->
  employees (loadSnapshot (persist st sto)) = employees st
  /\ lastId (loadSnapshot (persist st sto)) = lastId st.
Proof.
  intros (Hclean & Hcodes & Hsorted & Hids & Hlast) _.
  destruct (loadSnapshot_of_Snapshot (persist st sto) (serialize (employees st))
              eq_refl) as [-> ->].
  destruct (foldl_loadRecord_clean (employees st) (LoadAcc [] ∅ 0) (lastId st))
    as [Hu Hm]; try done.
  { eapply Forall_impl; [exact Hids|]. cbn. intros; lia. }
  cbn in Hu. rewrite Hu. cbn [persist employees_last_id].
  rewrite (bool_decide_eq_true_2 (lastId st >= 0)) by lia. cbn [default].
  unfold Datatypes.id. split.
  - by apply sortById_fixed, idsOf_sorted_byId.
  - rewrite bool_decide_eq_false_2; [done | lia].
Qed.

Lemma persist_then_loadSnapshot_example :
  rosterInv office
  /\ safeInteger (lastId office)
  /\ employees (loadSnapshot (persist office (mkStorage Corrupt None)))
     = employees office
  /\ lastId (loadSnapshot (persist office (mkStorage Corrupt None))) = lastId office.
Proof.
  assert (H : rosterInv office) by exact office_rosterInv.
  assert (Hsafe : safeInteger (lastId office))
    by (unfold safeInteger, maxSafeInteger; cbn; lia).
  split; [exact H|]. split; [exact Hsafe|].
  exact (persist_then_loadSnapshot office (mkStorage Corrupt None) H Hsafe).
Defined.

(** X23. A load of a snapshot whose identifiers and names are stored
    trimmed yields a roster of clean members in which no two identifiers are
    equal up to case. *)
Theorem loadSnapshot_of_trimmed_has_unique_identifiers
    (sto : Storage) (raw : list (option rawEmployee)) :
  employees_data sto = Snapshot raw ->
  Forall trimmedRecord raw ->
  Forall cleanMember (employees (loadSnapshot sto))
  /\ NoDup (loweredCodes (employees (loadSnapshot sto))).
Proof.
  intros Hdata Hraw.
  destruct (loadSnapshot_of_Snapshot sto raw Hdata) as [-> _].
  destruct (foldl_loadRecord_inv raw (LoadAcc [] ∅ 0) Hraw)
    as (Hclean & Hnodup & _).
  { unfold loadInv. cbn.
    split; [constructor|]. split; [constructor|]. split; [done|].
    split; [done | constructor]. }
  split.
  - by rewrite sortById_Permutation.
  - unfold loweredCodes. change (List.map ?f ?l) with (f <$> l).
    by rewrite sortById_Permutation.
Qed.

Lemma untidySnapshot_trimmed :
  Forall trimmedRecord
    [Some (RawEmployee (Some 7) (Some "E7") (Some "Gus") (Some " golf "));
     Some (RawEmployee (Some 2) (Some "e7") (Some "Hal") None);
     Some (RawEmployee (Some 5) (Some "E5") None None);
     None;
     Some (RawEmployee (Some 4) (Some "E4") (Some "Ida") None)].
Proof. repeat constructor. Qed.

Lemma loadSnapshot_of_trimmed_has_unique_identifiers_example :
  employees (loadSnapshot untidySnapshot)
  = [Employee 4 "E4" "Ida" ""; Employee 7 "E7" "Gus" "golf"]
  /\ Forall cleanMember (employees (loadSnapshot untidySnapshot))
  /\ NoDup (loweredCodes (employees (loadSnapshot untidySnapshot))).
Proof.
  split; [vm_compute; reflexivity|].
  exact (loadSnapshot_of_trimmed_has_unique_identifiers untidySnapshot _ eq_refl
           untidySnapshot_trimmed).
Defined.

Lemma reload_of_trimmed_snapshot_example :
  employees (reload untidySnapshot) = employees (loadSnapshot untidySnapshot)
  /\ lastId (reload untidySnapshot) = lastId (loadSnapshot untidySnapshot)
  /\ lastId (loadSnapshot untidySnapshot) = 7.
Proof.
  destruct (reload_of_trimmed_snapshot untidySnapshot _ eq_refl untidySnapshot_trimmed)
    as [He Hl].
  split; [exact He|]. split; [exact Hl|]. vm_compute. reflexivity.
Defined.

(** ** Search *)





Lemma toLowerCase_app (s t : string) :
  toLowerCase (s ++ t) = toLowerCase s ++ toLowerCase t.
Proof.
  induction s as [|c s IH]; [done|].
  change (String (toLowerCaseChar c) (toLowerCase (s ++ t))
          = String (toLowerCaseChar c) (toLowerCase s ++ toLowerCase t)).
  by rewrite IH.
Qed.

Lemma truthy_toLowerCase (s : string) : truthy (toLowerCase s) = truthy s.
Proof. by destruct s. Qed.

Lemma isWhitespace_toLowerCaseChar (c : ascii) :
  isWhitespace (toLowerCaseChar c) = isWhitespace c.
Proof. destruct c as [[] [] [] [] [] [] [] []]; vm_compute; reflexivity. Qed.

Lemma trimStart_toLowerCase (s : string) :
  trimStart (toLowerCase s) = toLowerCase (trimStart s).
Proof.
  induction s as [|c s IH]; [done|]. cbn.
  rewrite isWhitespace_toLowerCaseChar. by destruct (isWhitespace c).
Qed.

Lemma trimEnd_toLowerCase (s : string) :
  trimEnd (toLowerCase s) = toLowerCase (trimEnd s).
Proof.
  induction s as [|c s IH]; [done|]. cbn. rewrite IH.
  destruct (trimEnd s) as [|c' t]; cbn; [|done].
  rewrite isWhitespace_toLowerCaseChar. by destruct (isWhitespace c).
Qed.

Lemma trim_toLowerCase (s : string) : trim (toLowerCase s) = toLowerCase (trim s).
Proof. unfold trim. by rewrite trimStart_toLowerCase, trimEnd_toLowerCase. Qed.

(** X24. The search box ignores the case of the query and the blanks around
    it: a blank query shows the whole roster, and two queries that agree once
    lower-cased and trimmed show the same members. *)
Theorem search_ignores_case_and_padding (emps : list employee) :
  (forall q, trim q = "" -> filteredEmployees emps q = emps)
  /\ (forall q1 q2, trim (toLowerCase q1) = trim (toLowerCase q2) ->
        filteredEmployees emps q1 = filteredEmployees emps q2).
Proof.
  split.
  - intros q Hq. unfold filteredEmployees. rewrite Hq. cbn.
    induction emps as [|e emps IH]; [done|]. cbn. by rewrite IH.
  - intros q1 q2 Hq.
    assert (Hblank : truthy (trim q1) = truthy (trim q2)).
    { rewrite <- (truthy_toLowerCase (trim q1)), <- (truthy_toLowerCase (trim q2)).
      by rewrite <- !trim_toLowerCase, Hq. }
    unfold filteredEmployees. by rewrite Hblank, Hq.
Qed.



Lemma search_ignores_case_and_padding_example :
  trim (toLowerCase " Bob") = trim (toLowerCase "bOB  ")
  /\ filteredEmployees (employees office) " Bob"
     = filteredEmployees (employees office) "bOB  "
  /\ filteredEmployees (employees office) " Bob" = [bob].
Proof.
  assert (H : trim (toLowerCase " Bob") = trim (toLowerCase "bOB  "))
    by (vm_compute; reflexivity).
  split; [exact H|]. split; [|vm_compute; reflexivity].
  exact (proj2 (search_ignores_case_and_padding (employees office)) _ _ H).
Defined.

(** ** Generating sample members *)

Lemma string_app_empty (s : string) : s ++ "" = s.
Proof.
  induction s as [|c s IH]; [done|].
  change (String c (s ++ "") = String c s). by rewrite IH.
Qed.

Lemma toLowerCase_digits (d : Decimal.uint) :
  toLowerCase (NilEmpty.string_of_uint d) = NilEmpty.string_of_uint d.
Proof. induction d; cbn [NilEmpty.string_of_uint toLowerCase]; [done|..]; by rewrite IHd. Qed.

Lemma noWhitespace_digits (d : Decimal.uint) :
  noWhitespace (NilEmpty.string_of_uint d) = true.
Proof. induction d; cbn [NilEmpty.string_of_uint noWhitespace]; [done|..]; by rewrite IHd. Qed.

Lemma natToString_inj (n m : nat) : natToString n = natToString m -> n = m.
Proof.
  unfold natToString. intros H. apply DecimalNat.Unsigned.to_uint_inj.
  apply (f_equal NilEmpty.uint_of_string) in H.
  rewrite !NilEmpty.usu in H. congruence.
Qed.

Lemma noWhitespace_app (s t : string) :
  noWhitespace (s ++ t) = noWhitespace s && noWhitespace t.
Proof.
  induction s as [|c s IH]; [done|].
  change (negb (isWhitespace c) && noWhitespace (s ++ t)
          = negb (isWhitespace c) && noWhitespace s && noWhitespace t).
  rewrite IH. by destruct (isWhitespace c).
Qed.

Lemma noWhitespace_trim (s : string) : noWhitespace s = true -> trim s = s.
Proof.
  intros H. unfold trim.
  assert (Hstart : trimStart s = s).
  { destruct s as [|c s]; [done|]. cbn in *. by destruct (isWhitespace c). }
  rewrite Hstart. clear Hstart.
  induction s as [|c s IH]; [done|]. cbn in *.
  apply andb_true_iff in H as [Hc Hs]. rewrite (IH Hs).
  destruct s; [|done]. by destruct (isWhitespace c).
Qed.

Lemma noWhitespace_padding (n : nat) : noWhitespace (padding n "0") = true.
Proof. induction n as [|n IH]; [done|]. cbn [padding noWhitespace]. by rewrite IH. Qed.

Lemma candidateEmpnid_succ (i k : nat) :
  candidateEmpnid i (k + 1) = sampleEmpnid i ++ "-" ++ natToString (k + 1).
Proof. by rewrite Nat.add_1_r. Qed.

Lemma candidateEmpnid_clean (i k : nat) :
  truthy (candidateEmpnid i k) = true
  /\ trim (candidateEmpnid i k) = candidateEmpnid i k.
Proof.
  split; [by destruct k|].
  apply noWhitespace_trim.
  assert (Hbase : noWhitespace (sampleEmpnid i) = true).
  { unfold sampleEmpnid, padStart, natToString.
    by rewrite !noWhitespace_app, noWhitespace_padding, noWhitespace_digits. }
  destruct k as [|k]; [done|]. unfold candidateEmpnid, natToString.
  by rewrite !noWhitespace_app, Hbase, noWhitespace_digits.
Qed.

(** The identifiers the inner loop tries for one index differ from one
    another, also once lower-cased. *)
Lemma candidateEmpnid_inj (i j k : nat) :
  toLowerCase (candidateEmpnid i j) = toLowerCase (candidateEmpnid i k) -> j = k.
Proof.
  assert (Hlow : forall n, toLowerCase (candidateEmpnid i n)
            = toLowerCase (sampleEmpnid i)
              ++ match n with O => "" | S _ => "-" ++ natToString n end).
  { intros [|n]; [by rewrite string_app_empty|].
    unfold candidateEmpnid. rewrite !toLowerCase_app.
    unfold natToString. by rewrite toLowerCase_digits. }
  rewrite !Hlow. intros H. apply String.app_inj in H.
  destruct j, k; try done.
  apply natToString_inj. by injection H.
Qed.

Lemma empnidTaken_true (existingEmpnids : gset string) (newEmployees : list employee)
    (code : string) :
  empnidTaken existingEmpnids newEmployees code = true
  <-> toLowerCase code ∈ takenCodes existingEmpnids newEmployees.
Proof.
  unfold empnidTaken, takenCodes.
  rewrite orb_true_iff, bool_decide_eq_true, existsb_exists, elem_of_union,
    elem_of_list_to_set, elem_of_loweredCodes.
  split; (intros [H|H]; [by left|right]); destruct H as (e & H1 & H2); exists e.
  - apply bool_decide_eq_true in H2. split; [by apply list_elem_of_In|done].
  - split; [by apply list_elem_of_In|by apply bool_decide_eq_true].
Qed.

Lemma size_list_to_set_le (l : list string) :
  (size (list_to_set l : gset string) <= length l)%nat.
Proof.
  induction l as [|x l IH]; [done|]. cbn [list_to_set length].
  rewrite size_union_alt, size_singleton.
  assert (H : (size ((list_to_set l : gset string) ∖ {[x]})
               <= size (list_to_set l : gset string))%nat)
    by (apply subseteq_size; set_solver).
  lia.
Qed.

Lemma size_takenCodes (emps newEmployees : list employee) :
  (size (takenCodes (existingEmpnidsOf emps) newEmployees)
   <= length emps + length newEmployees)%nat.
Proof.
  unfold takenCodes, existingEmpnidsOf. rewrite size_union_alt.
  pose proof (size_list_to_set_le (List.map (fun emp => toLowerCase (empnid emp)) emps)) as H1.
  pose proof (size_list_to_set_le (loweredCodes newEmployees)) as H2.
  assert (H3 : (size ((list_to_set (loweredCodes newEmployees) : gset string)
                  ∖ list_to_set (List.map (fun emp => toLowerCase (empnid emp)) emps))
                <= size (list_to_set (loweredCodes newEmployees) : gset string))%nat)
    by (apply subseteq_size; set_solver).
  rewrite length_map in H1. unfold loweredCodes in H2 at 2. rewrite length_map in H2.
  lia.
Qed.

(** The inner loop ends, with an identifier that is not taken, within as many
    turns as there are taken identifiers it can still run into. *)
Lemma freeEmpnid_finds (i : nat) (existingEmpnids : gset string)
    (newEmployees : list employee) (fuel : nat) :
  forall (T : gset string) (k : nat),
    (size T <= fuel)%nat ->
    (forall j, (k <= j)%nat ->
       toLowerCase (candidateEmpnid i j) ∈ takenCodes existingEmpnids newEmployees ->
       toLowerCase (candidateEmpnid i j) ∈ T) ->
    exists j,
      freeEmpnid fuel i existingEmpnids newEmployees (candidateEmpnid i k) (k + 1)
      = Some (candidateEmpnid i j)
      /\ toLowerCase (candidateEmpnid i j) ∉ takenCodes existingEmpnids newEmployees.
Proof.
  induction fuel as [|fuel IH]; intros T k Hsize HT; cbn [freeEmpnid];
    destruct (empnidTaken existingEmpnids newEmployees (candidateEmpnid i k)) eqn:E.
  - apply empnidTaken_true in E. apply (HT k) in E; [|lia].
    assert (T ≡ ∅) by (apply size_empty_iff; lia). set_solver.
  - exists k. split; [done|]. rewrite <- empnidTaken_true. by rewrite E.
  - apply empnidTaken_true in E. pose proof (HT k (le_n _) E) as Hk.
    rewrite <- candidateEmpnid_succ.
    apply (IH (T ∖ {[toLowerCase (candidateEmpnid i k)]})).
    + assert (Hd : size (T ∖ {[toLowerCase (candidateEmpnid i k)]})
                   = (size T - size ({[toLowerCase (candidateEmpnid i k)]} : gset string))%nat)
        by (apply size_difference; set_solver).
      rewrite size_singleton in Hd.
      assert (size T <> 0%nat).
      { intros H0. apply size_empty_iff in H0. set_solver. }
      lia.
    + intros j Hj Hin. apply elem_of_difference. split; [apply HT; [lia|done]|].
      intros Heq%elem_of_singleton. apply candidateEmpnid_inj in Heq. lia.
  - exists k. split; [done|]. rewrite <- empnidTaken_true. by rewrite E.
Qed.

Lemma sampleNames_clean :
  Forall (fun n => truthy n = true /\ trim n = n) (List.map sampleName (seq 0 100)).
Proof.
  apply Forall_forall. intros n Hn. apply list_elem_of_In in Hn.
  assert (Hall : forallb (fun n => truthy n && bool_decide (trim n = n))
                   (List.map sampleName (seq 0 100)) = true)
    by (vm_compute; reflexivity).
  rewrite forallb_forall in Hall. apply Hall in Hn.
  apply andb_true_iff in Hn as [H1 H2]. by apply bool_decide_eq_true in H2.
Qed.

(** The outer loop from index [i] on: it ends, having added one member per
    turn, with consecutive ids and identifiers that are new. *)
Lemma generateFrom_spec (emps : list employee) (fuel remaining : nat) :
  forall (i : nat) (newEmployees : list employee) (currentLastId : Z),
    (length emps + length newEmployees + remaining <= fuel)%nat ->
    exists added,
      generateFrom fuel remaining i (existingEmpnidsOf emps) newEmployees currentLastId
      = Some ((newEmployees ++ added)%list, currentLastId + Z.of_nat remaining)
      /\ idsOf added = seqZ (currentLastId + 1) (Z.of_nat remaining)
      /\ List.map name added = List.map sampleName (seq i remaining)
      /\ Forall (fun e => interests e = ""
                          /\ exists i' k, empnid e = candidateEmpnid i' k) added
      /\ Forall (fun e => toLowerCase (empnid e) ∉ loweredCodes emps) added
      /\ (NoDup (loweredCodes newEmployees) ->
          NoDup (loweredCodes (newEmployees ++ added))).
Proof.
  induction remaining as [|remaining IH]; intros i newEmployees currentLastId Hfuel.
  - exists []. cbn [generateFrom]. rewrite app_nil_r, Z.add_0_r.
    repeat split; try done; constructor.
  - cbn [generateFrom].
    destruct (freeEmpnid_finds i (existingEmpnidsOf emps) newEmployees fuel
                (takenCodes (existingEmpnidsOf emps) newEmployees) 0)
      as (j & Hfind & Hfresh).
    { pose proof (size_takenCodes emps newEmployees). lia. }
    { done. }
    change (candidateEmpnid i 0) with (sampleEmpnid i) in Hfind.
    change (0 + 1)%nat with 1%nat in Hfind. rewrite Hfind.
    set (e := Employee (currentLastId + 1) (candidateEmpnid i j) (sampleName i) "").
    destruct (IH (i + 1)%nat (newEmployees ++ [e])%list (currentLastId + 1))
      as (added & Hgen & Hids & Hnames & Hshape & Hnew & Hdup).
    { rewrite length_app. cbn. lia. }
    exists (e :: added). rewrite Hgen.
    unfold takenCodes in Hfresh. rewrite not_elem_of_union in Hfresh.
    destruct Hfresh as [Hfresh1 Hfresh2].
    rewrite elem_of_existingEmpnidsOf in Hfresh1.
    rewrite elem_of_list_to_set in Hfresh2.
    split; [|split; [|split; [|split; [|split]]]].
    + rewrite <- app_assoc. do 2 f_equal. lia.
    + cbn [idsOf List.map]. fold (idsOf added). rewrite Hids.
      rewrite (seqZ_cons (currentLastId + 1)) by lia. cbn [id e].
      do 2 f_equal; lia.
    + cbn [List.map seq]. rewrite Hnames. by rewrite Nat.add_1_r.
    + constructor; [|done]. split; [done|]. by exists i, j.
    + by constructor.
    + intros Hnd. rewrite <- app_assoc in Hdup. apply Hdup.
      unfold loweredCodes. rewrite List.map_app. fold (loweredCodes newEmployees).
      apply NoDup_app. split; [done|]. split.
      * intros x Hx Hx'. cbn in Hx'. apply list_elem_of_singleton in Hx'.
        subst x. done.
      * cbn. apply NoDup_singleton.
Qed.

(** What a confirmed run of [handleGenerate100Employees] does. *)
Lemma handleGenerate100Employees_cases (st : State) :
  exists added,
    handleGenerate100Employees st true
    = Some (setError ""
             (setEmployees (employees st ++ added)
               (setLastId (lastId st + 100) st)))
    /\ idsOf added = seqZ (lastId st + 1) 100
    /\ List.map name added = take 100 sampleNames
    /\ Forall (fun e => interests e = ""
                        /\ exists i' k, empnid e = candidateEmpnid i' k) added
    /\ Forall (fun e => toLowerCase (empnid e) ∉ loweredCodes (employees st)) added
    /\ NoDup (loweredCodes added).
Proof.
  destruct (generateFrom_spec (employees st) (length (employees st) + 100) 100
              0 [] (lastId st)) as (added & Hgen & Hids & Hnames & Hshape & Hnew & Hdup).
  { cbn. lia. }
  exists added. unfold handleGenerate100Employees. rewrite Hgen.
  split; [done|]. split; [done|]. split.
  { rewrite Hnames. vm_compute. reflexivity. }
  split; [done|]. split; [done|]. apply Hdup. constructor.
Qed.

(** X26. From a counter that a hundred increments leave within the safe
    integers, a confirmed run of the sample generator always ends, whatever
    the roster holds: it appends exactly a hundred members, named after the
    first hundred names of the table, with the ids that follow the counter,
    and with identifiers that differ, up to case, from one another and from
    every identifier of the roster; the counter advances by a hundred, the
    error is cleared, and nothing else changes. *)
Theorem handleGenerate100Employees_adds_a_hundred (st : State) :
  safeCounter (lastId st) 100 ->
  exists added,
    handleGenerate100Employees st true
    = Some (setError ""
             (setEmployees (employees st ++ added)
               (setLastId (lastId st + 100) st)))
    /\ idsOf added = seqZ (lastId st + 1) 100
    /\ List.map name added = take 100 sampleNames
    /\ Forall (fun e => interests e = "") added
    /\ NoDup (loweredCodes added)
    /\ (forall e e', e ∈ added -> e' ∈ employees st ->
          toLowerCase (empnid e) <> toLowerCase (empnid e')).
Proof.
  intros _.
  destruct (handleGenerate100Employees_cases st)
    as (added & Hrun & Hids & Hnames & Hshape & Hnew & Hdup).
  exists added. repeat split; try done.
  - eapply Forall_impl; [exact Hshape|]. by intros e [H _].
  - intros e e' He He' Heq. rewrite Forall_forall in Hnew.
    apply (Hnew e He). apply elem_of_loweredCodes. by exists e'.
Qed.

Lemma handleGenerate100Employees_adds_a_hundred_example :
  safeCounter (lastId office) 100
  /\ (exists added,
        handleGenerate100Employees office true
        = Some (setError ""
                 (setEmployees (employees office ++ added)
                   (setLastId (lastId office + 100) office)))
        /\ idsOf added = seqZ (lastId office + 1) 100
        /\ List.map name added = take 100 sampleNames
        /\ Forall (fun e => interests e = "") added
        /\ NoDup (loweredCodes added)
        /\ (forall e e', e ∈ added -> e' ∈ employees office ->
              toLowerCase (empnid e) <> toLowerCase (empnid e')))
  /\ (List.map empnid <$> (take 5 <$> (employees <$> handleGenerate100Employees
         (setEmployees [Employee 1 "emp002" "X" ""; Employee 2 "EMP002-1" "Y" ""]
            office) true)))
     = Some ["emp002"; "EMP002-1"; "EMP001"; "EMP002-2"; "EMP003"].
Proof.
  assert (H : safeCounter (lastId office) 100)
    by (unfold safeCounter, maxSafeInteger; cbn; lia).
  split; [exact H|]. split; [|vm_compute; reflexivity].
  exact (handleGenerate100Employees_adds_a_hundred office H).
Defined.

(** X27. From a counter that a hundred increments leave within the safe
    integers, the sample generator keeps the roster invariant, whether the
    prompt is confirmed or declined: the members stay clean, their
    identifiers unique up to case, their ids increasing and covered by the
    counter; and the assignments it leaves in place still refer to members. *)
Theorem handleGenerate100Employees_keeps_roster_invariant (st : State)
    (confirmed : bool) :
  rosterInv st ->
  safeCounter (lastId st) 100 ->
  exists st', handleGenerate100Employees st confirmed = Some st'
              /\ rosterInv st'
              /\ (assignmentsWithinRoster st -> assignmentsWithinRoster st').
Proof.
  intros (Hclean & Hcodes & Hsorted & Hbound & Hlast) _.
  destruct confirmed; [|by exists st].
  destruct (handleGenerate100Employees_cases st)
    as (added & Hrun & Hids & Hnames & Hshape & Hnew & Hdup).
  eexists. split; [exact Hrun|]. split; cycle 1.
  { intros Hwithin k v Hkv. cbn in Hkv. destruct (Hwithin k v Hkv) as [Hk Hv].
    cbn. unfold idsOf. rewrite List.map_app. fold (idsOf (employees st)).
    split; apply elem_of_app; by left. }
  assert (Hrange : forall e, e ∈ added -> lastId st < id e <= lastId st + 100).
  { intros e He.
    assert (Hin : id e ∈ idsOf added) by (apply elem_of_idsOf; by exists e).
    rewrite Hids in Hin. apply elem_of_seqZ in Hin. lia. }
  unfold rosterInv. cbn. split; [|split; [|split; [|split]]].
  - apply Forall_app. split; [done|].
    apply Forall_forall. intros e He.
    rewrite Forall_forall in Hshape. destruct (Hshape e He) as (Hint & i' & k & Hcode).
    assert (Hname : truthy (name e) = true /\ trim (name e) = name e).
    { pose proof sampleNames_clean as Hall. rewrite Forall_forall in Hall.
      apply Hall.
      replace (List.map sampleName (seq 0 100)) with (take 100 sampleNames)
        by (vm_compute; reflexivity).
      rewrite <- Hnames. apply list_elem_of_In, in_map. by apply list_elem_of_In. }
    destruct (candidateEmpnid_clean i' k) as [Ht Htrim].
    pose proof (Hrange e He).
    destruct Hname as [Hname1 Hname2].
    unfold cleanMember. rewrite Hcode, Hint.
    repeat split; try done. lia.
  - unfold loweredCodes. rewrite List.map_app.
    apply NoDup_app. split; [done|]. split; [|done].
    intros x Hx Hx'. apply elem_of_loweredCodes in Hx' as (e & He & <-).
    rewrite Forall_forall in Hnew. by apply (Hnew e He).
  - apply (idsOf_sorted_app _ _ (lastId st)); [done| | |].
    + eapply Forall_impl; [exact Hbound|]. intros e He. cbn in He. lia.
    + rewrite Hids. apply (seqZ_sorted _ 100).
    + apply Forall_forall. intros e He. apply Hrange in He. lia.
  - apply Forall_app. split.
    + eapply Forall_impl; [exact Hbound|]. intros e He. cbn in He. cbn. lia.
    + apply Forall_forall. intros e He. apply Hrange in He. lia.
  - lia.
Qed.

Lemma handleGenerate100Employees_keeps_roster_invariant_example :
  rosterInv office
  /\ safeCounter (lastId office) 100
  /\ exists st', handleGenerate100Employees office true = Some st'
                 /\ rosterInv st'
                 /\ (assignmentsWithinRoster office -> assignmentsWithinRoster st').
Proof.
  assert (H : rosterInv office) by exact office_rosterInv.
  assert (Hsafe : safeCounter (lastId office) 100)
    by (unfold safeCounter, maxSafeInteger; cbn; lia).
  split; [exact H|]. split; [exact Hsafe|].
  exact (handleGenerate100Employees_keeps_roster_invariant office true H Hsafe).
Defined.

(** ** The form and the popup *)

Lemma find_id_in_roster (emps : list employee) (eid : Z) :
  eid ∈ idsOf emps ->
  exists e, List.find (fun emp => bool_decide (id emp = eid)) emps = Some e.
Proof.
  intros Hin. apply elem_of_idsOf in Hin as (e & He & Hid).
  destruct (List.find _ emps) as [e'|] eqn:Hfind; [by exists e'|].
  apply list_elem_of_In in He. apply (find_none _ _ Hfind) in He.
  by apply bool_decide_eq_false in He.
Qed.

Lemma validateForm_rejects_keeps_edit (st st' : State) :
  validateForm st = (false, st') ->
  employees st' = employees st /\ editingId st' = editingId st
  /\ error st' <> "Employee not found".
Proof.
  unfold validateForm. repeat case_match; intros [= <-]; done.
Qed.

(** X28. The edit always points at a member: if the id held by the form is
    that of a member, or the form holds none, this is still so after typing
    in a field, after opening a member, after cancelling, after submitting,
    and after deleting any member, the one being edited included. *)
Theorem edit_target_stays_in_roster (st : State) :
  editingRefersToMember st ->
  (forall field value, editingRefersToMember (handleChange st field value))
  /\ (forall e, e ∈ employees st -> editingRefersToMember (handleEdit st e))
  /\ editingRefersToMember (handleCancel st)
  /\ editingRefersToMember (handleSubmit st)
  /\ (forall d confirmed, editingRefersToMember (handleDelete st d confirmed)).
Proof.
  intros Hinv.
  assert (Hcreate : editingRefersToMember (handleCreate st)).
  { unfold handleCreate. destruct (validateForm st) as [[] st'] eqn:Hv.
    - destruct (empnidExists _ _); [done|].
      unfold editingRefersToMember in *. cbn.
      destruct (editingId st) as [eid|]; [|done].
      unfold idsOf. rewrite List.map_app. apply elem_of_app. by left.
    - apply validateForm_rejects_keeps_edit in Hv as (He & Hid & _).
      unfold editingRefersToMember. by rewrite He, Hid. }
  assert (Hupdate : editingRefersToMember (handleUpdate st)).
  { unfold handleUpdate. destruct (validateForm st) as [[] st'] eqn:Hv.
    - destruct (editingId st) as [eid|] eqn:Heid.
      + destruct (List.find _ (employees st));
          [destruct (empnidExistsOther _ _ eid)|];
          unfold editingRefersToMember in *; cbn; rewrite ?Heid in *; done.
      + unfold editingRefersToMember in *; cbn; by rewrite Heid.
    - apply validateForm_rejects_keeps_edit in Hv as (He' & Hid & _).
      unfold editingRefersToMember. by rewrite He', Hid. }
  split; [|split; [|split; [|split]]].
  - intros [] value; exact Hinv.
  - intros e He. unfold editingRefersToMember. cbn.
    apply elem_of_idsOf. by exists e.
  - done.
  - unfold handleSubmit. destruct (editingId st); [case_bool_decide|]; done.
  - intros d [|]; [|done]. unfold handleDelete, editingRefersToMember in *.
    case_bool_decide as Hd; cbn; [done|].
    destruct (editingId st) as [eid|]; [|done].
    apply elem_of_idsOf in Hinv as (e & He & Hid).
    apply elem_of_idsOf. exists e. split; [|done].
    apply elem_of_List_filter. split; [done|].
    apply negb_true_iff, bool_decide_eq_false. congruence.
Qed.

Lemma edit_target_stays_in_roster_example :
  editingRefersToMember officeEditingBob
  /\ editingRefersToMember (handleDelete officeEditingBob 2 true)
  /\ editingId (handleDelete officeEditingBob 2 true) = None.
Proof.
  assert (H : editingRefersToMember officeEditingBob).
  { apply list_elem_of_further, list_elem_of_here. }
  split; [exact H|]. split; [|vm_compute; reflexivity].
  exact (proj2 (proj2 (proj2 (proj2 (edit_target_stays_in_roster _ H)))) 2 true).
Defined.

(** X29. As long as the edit points at a member, submitting the form never
    ends in the message that the member was not found. *)
Theorem handleSubmit_never_reports_missing_member (st : State) :
  editingRefersToMember st ->
  error (handleSubmit st) <> "Employee not found".
Proof.
  intros Hinv.
  assert (Hcreate : error (handleCreate st) <> "Employee not found").
  { unfold handleCreate. destruct (validateForm st) as [[] st'] eqn:Hv.
    - by destruct (empnidExists _ _).
    - by apply validateForm_rejects_keeps_edit in Hv as (_ & _ & He). }
  unfold handleSubmit. destruct (editingId st) as [eid|] eqn:Heid; [|done].
  case_bool_decide; [done|].
  unfold handleUpdate. destruct (validateForm st) as [[] st'] eqn:Hv.
  - rewrite Heid. unfold editingRefersToMember in Hinv. rewrite Heid in Hinv.
    destruct (find_id_in_roster _ _ Hinv) as [e ->].
    by destruct (empnidExistsOther _ _ eid).
  - by apply validateForm_rejects_keeps_edit in Hv as (_ & _ & He).
Qed.

Lemma handleSubmit_never_reports_missing_member_example :
  editingRefersToMember officeEditingBob
  /\ error (handleSubmit officeEditingBob) <> "Employee not found"
  /\ error (handleSubmit staleEditForm) = "Employee not found".
Proof.
  assert (H : editingRefersToMember officeEditingBob).
  { apply list_elem_of_further, list_elem_of_here. }
  split; [exact H|]. split; [|vm_compute; reflexivity].
  exact (handleSubmit_never_reports_missing_member _ H).
Defined.

(** X30. Closing the slot popup does not cancel a draw: once a slot has
    been clicked, closing the popup before the timer fires leaves the same
    state behind as the draw that is not interrupted. *)
Theorem closing_the_popup_does_not_cancel_a_draw
    (st : State) (employeeId : Z) (slotIndex : nat) (r : Q) :
  availableEmployees st employeeId <> [] ->
  exists st1 p,
    handleSlotSelect (handleIndividualDraw st employeeId) slotIndex r = (st1, Some p)
    /\ slotSelectTimeout (handleCloseSlotSelection st1) p
       = individualDraw st employeeId slotIndex r.
Proof.
  intros Hpool. unfold individualDraw, handleIndividualDraw.
  destruct (availableEmployees st employeeId) as [|e0 pool]; [done|].
  cbn. eexists _, _. split; [reflexivity|].
  unfold slotSelectTimeout. cbn. by repeat case_match.
Qed.

Lemma closing_the_popup_does_not_cancel_a_draw_example :
  availableEmployees office 1 <> []
  /\ (exists st1 p,
        handleSlotSelect (handleIndividualDraw office 1) 0 0 = (st1, Some p)
        /\ slotSelectTimeout (handleCloseSlotSelection st1) p
           = individualDraw office 1 0 0)
  /\ (secretSantaAssignments <$> individualDraw office 1 0 0) = Some {[ 1 := 2 ]}.
Proof.
  assert (H : availableEmployees office 1 <> []) by (vm_compute; discriminate).
  split; [exact H|]. split; [|vm_compute; reflexivity].
  exact (closing_the_popup_does_not_cancel_a_draw office 1 0 0 H).
Defined.
